(** * FaceCamera: camera negotiation, readiness gate and frame capture

    A shallow embedding of [src/components/face/FaceCamera.tsx] (the React
    component wrapping [navigator.mediaDevices.getUserMedia], a [<video>]
    element and a hidden [<canvas>]), together with the properties of its
    three exposed operations [startCamera], [stopCamera] and [capture].

    The browser is the environment: what [getUserMedia] answers, when the
    video element fires its events, and which pixels [drawImage] paints are
    inputs of the model.  What the component does with them is transcribed
    from the source, statement by statement. *)

From Stdlib Require Import String Ascii List Arith Bool Lia.
From stdpp Require Import base option list gmap strings.
Import ListNotations.

Local Open Scope string_scope.
Local Open Scope nat_scope.

(** ** JavaScript values the component branches on *)

(** [x || dflt] on a string: the empty string is falsy. *)
Definition orElse (x dflt : string) : string :=
  if String.eqb x "" then dflt else x.

(** [x || dflt] on a number: zero is falsy. *)
Definition orElseNat (x dflt : nat) : nat :=
  if x =? 0 then dflt else x.

(** [opt || dflt] on an optional string property ([undefined] is falsy). *)
Definition optOrElse (x : option string) (dflt : string) : string :=
  match x with
  | Some s => orElse s dflt
  | None => dflt
  end.

(** An instance of [Error] (a [DOMException] is one): its [name] and
    [message]. *)
Record JsError := mkError { name : string; message : string }.

(** [new Error(msg)]. *)
Definition newError (msg : string) : JsError :=
  {| name := "Error"; message := msg |}.

(** What a [catch] clause may receive: an [Error] instance, or any other
    value (for which [error instanceof Error] is false). *)
Inductive Thrown :=
| ThrownError (e : JsError)
| ThrownOther.

(** ** Device class: the user-agent test

    [/Android|iPhone|iPad|iPod|BlackBerry|IEMobile|Opera Mini/i.test(ua)] *)

Definition lowerAscii (c : ascii) : ascii :=
  let n := nat_of_ascii c in
  if (65 <=? n) && (n <=? 90) then ascii_of_nat (n + 32) else c.

Fixpoint lowerCase (s : string) : string :=
  match s with
  | EmptyString => EmptyString
  | String c s' => String (lowerAscii c) (lowerCase s')
  end.

(** [hay] contains [needle] as a substring. *)
Fixpoint includes (needle hay : string) : bool :=
  String.prefix needle hay ||
  match hay with
  | EmptyString => false
  | String _ hay' => includes needle hay'
  end.

Definition mobilePatterns : list string :=
  ["Android"; "iPhone"; "iPad"; "iPod"; "BlackBerry"; "IEMobile"; "Opera Mini"].

Definition isMobileUA (userAgent : string) : bool :=
  existsb (fun p => includes (lowerCase p) (lowerCase userAgent)) mobilePatterns.

(** ** Constraint candidates handed to [getUserMedia] *)

Module Media.

(** [{ ideal: i, min: m }] *)
Record Range := mkRange { ideal : nat; min : nat }.

Inductive FacingMode :=
| FacingExact (mode : string)   (* facingMode: { exact: 'user' } *)
| FacingPlain (mode : string).  (* facingMode: 'user' *)

Record VideoConstraints := mkVideo {
  facingMode : option FacingMode;
  width : option Range;
  height : option Range;
  frameRate : option Range
}.

Inductive VideoRequest :=
| VideoWith (c : VideoConstraints)
| VideoAny.                     (* video: true *)

Record StreamConstraints := mkConstraints {
  video : VideoRequest;
  audio : bool
}.

End Media.

Abbreviation MediaStreamConstraints := Media.StreamConstraints.

(** The [constraintOptions] array of [startCamera], in source order. *)
Definition constraintOptions (isMobile : bool) : list MediaStreamConstraints :=
  [ (* Option 1: explicit front camera with ideal settings *)
    Media.mkConstraints
      (Media.VideoWith
         (Media.mkVideo
            (Some (Media.FacingExact "user"))
            (Some (if isMobile then Media.mkRange 640 320 else Media.mkRange 640 320))
            (Some (if isMobile then Media.mkRange 480 240 else Media.mkRange 480 240))
            (Some (Media.mkRange 30 15))))
      false;
    (* Option 2: looser front camera constraints *)
    Media.mkConstraints
      (Media.VideoWith
         (Media.mkVideo
            (Some (Media.FacingPlain "user"))
            (Some (Media.mkRange 480 240))
            (Some (Media.mkRange 360 180))
            (Some (Media.mkRange 24 10))))
      false;
    (* Option 3: most basic front camera request *)
    Media.mkConstraints
      (Media.VideoWith
         (Media.mkVideo (Some (Media.FacingPlain "user")) None None None))
      false;
    (* Option 4: last resort, any video *)
    Media.mkConstraints Media.VideoAny false ].

(** ** The readiness wait

    The promise executor of [startCamera] (the [await new Promise(...)]
    block): three listeners on the video element, a [resolved] flag, and up
    to three timers.  Times are milliseconds since the executor ran. *)

Inductive Signal :=
| LoadedData    (* 'loadeddata': first frame decoded *)
| CanPlay       (* 'canplay': playback can begin *)
| ErrorEvent.   (* 'error' *)

Inductive Timer :=
| FallbackTimer    (* setTimeout(..., isMobile ? 3000 : 2000) *)
| UltimateTimer    (* setTimeout(..., isMobile ? 8000 : 5000) *)
| StabilizeTimer.  (* setTimeout(() => resolve(), 1000), mobile only *)

#[global] Instance Signal_eq_dec : EqDecision Signal.
Proof. solve_decision. Defined.

#[global] Instance Timer_eq_dec : EqDecision Timer.
Proof. solve_decision. Defined.

Inductive PromiseState :=
| Pending
| Fulfilled
| Rejected (reason : JsError).

Record Wait := mkWait {
  resolved : bool;                 (* let resolved = false *)
  listeners : list Signal;         (* event types this attempt still listens to *)
  timers : list (Timer * N);       (* pending setTimeout callbacks, with due time *)
  promise : PromiseState;
  settledAt : option N;            (* when the promise left Pending *)
  resolveCalls : nat;              (* calls of resolve() made by the code *)
  rejectCalls : nat                (* calls of reject() made by the code *)
}.

Definition setResolved (b : bool) (w : Wait) : Wait :=
  mkWait b (listeners w) (timers w) (promise w) (settledAt w)
         (resolveCalls w) (rejectCalls w).

Definition setListeners (l : list Signal) (w : Wait) : Wait :=
  mkWait (resolved w) l (timers w) (promise w) (settledAt w)
         (resolveCalls w) (rejectCalls w).

Definition setTimers (l : list (Timer * N)) (w : Wait) : Wait :=
  mkWait (resolved w) (listeners w) l (promise w) (settledAt w)
         (resolveCalls w) (rejectCalls w).

(** A promise settles once: later calls of [resolve]/[reject] are ignored. *)
Definition resolve (now : N) (w : Wait) : Wait :=
  match promise w with
  | Pending =>
      mkWait (resolved w) (listeners w) (timers w) Fulfilled (Some now)
             (S (resolveCalls w)) (rejectCalls w)
  | _ =>
      mkWait (resolved w) (listeners w) (timers w) (promise w) (settledAt w)
             (S (resolveCalls w)) (rejectCalls w)
  end.

Definition reject (now : N) (reason : JsError) (w : Wait) : Wait :=
  match promise w with
  | Pending =>
      mkWait (resolved w) (listeners w) (timers w) (Rejected reason) (Some now)
             (resolveCalls w) (S (rejectCalls w))
  | _ =>
      mkWait (resolved w) (listeners w) (timers w) (promise w) (settledAt w)
             (resolveCalls w) (S (rejectCalls w))
  end.

Definition addEventListener (s : Signal) (w : Wait) : Wait :=
  setListeners (listeners w ++ [s]) w.

Definition removeEventListener (s : Signal) (w : Wait) : Wait :=
  setListeners (filter (fun x => x <> s) (listeners w)) w.

Definition setTimeout (t : Timer) (due : N) (w : Wait) : Wait :=
  setTimers (timers w ++ [(t, due)]) w.

Definition removeAllListeners (w : Wait) : Wait :=
  removeEventListener ErrorEvent
    (removeEventListener CanPlay
      (removeEventListener LoadedData w)).

Definition fallbackMs (isMobile : bool) : N := if isMobile then 3000%N else 2000%N.
Definition ultimateMs (isMobile : bool) : N := if isMobile then 8000%N else 5000%N.
Definition stabilizeMs : N := 1000%N.

Definition onLoadedData (isMobile : bool) (now : N) (w : Wait) : Wait :=
  if resolved w then w
  else
    let w := setResolved true w in
    let w := removeAllListeners w in
    if isMobile then setTimeout StabilizeTimer (now + stabilizeMs)%N w
    else resolve now w.

Definition onCanPlay (isMobile : bool) (now : N) (w : Wait) : Wait :=
  if resolved w then w else onLoadedData isMobile now w.

Definition onError (now : N) (w : Wait) : Wait :=
  if resolved w then w
  else
    let w := setResolved true w in
    let w := removeAllListeners w in
    reject now (newError "Video failed to load") w.

Definition onFallbackTimeout (isMobile : bool) (now : N) (readyState : nat)
    (w : Wait) : Wait :=
  if negb (resolved w) && (2 <=? readyState)
  then onLoadedData isMobile now w
  else w.

Definition ultimateMessage (isMobile : bool) : string :=
  "Video not ready after " ++ (if isMobile then "8" else "5") ++ " seconds".

Definition onUltimateTimeout (isMobile : bool) (now : N) (w : Wait) : Wait :=
  if negb (resolved w)
  then reject now (newError (ultimateMessage isMobile)) w
  else w.

(** The executor body: register the listeners and arm both timeouts.  The
    [video.play()] forced on mobile only logs when it fails. *)
Definition executor (isMobile : bool) (now : N) : Wait :=
  let w := mkWait false [] [] Pending None 0 0 in
  let w := addEventListener LoadedData w in
  let w := addEventListener CanPlay w in
  let w := addEventListener ErrorEvent w in
  let w := setTimeout FallbackTimer (now + fallbackMs isMobile)%N w in
  setTimeout UltimateTimer (now + ultimateMs isMobile)%N w.

(** The video element delivers an event only to a registered listener. *)
Definition dispatch (isMobile : bool) (now : N) (s : Signal) (w : Wait) : Wait :=
  if decide (s ∈ listeners w) then
    match s with
    | LoadedData => onLoadedData isMobile now w
    | CanPlay => onCanPlay isMobile now w
    | ErrorEvent => onError now w
    end
  else w.

Definition runCallback (isMobile : bool) (now : N) (readyState : nat)
    (t : Timer) (w : Wait) : Wait :=
  match t with
  | FallbackTimer => onFallbackTimeout isMobile now readyState w
  | UltimateTimer => onUltimateTimeout isMobile now w
  | StabilizeTimer => resolve now w
  end.

(** Remove the first occurrence of a pending timer. *)
Fixpoint dequeue (e : Timer * N) (l : list (Timer * N)) : list (Timer * N) :=
  match l with
  | [] => []
  | x :: l' => if decide (x = e) then l' else x :: dequeue e l'
  end.

(** A pending timer expires: it leaves the queue and its callback runs. *)
Definition fireEntry (isMobile : bool) (now : N) (readyState : nat)
    (e : Timer * N) (w : Wait) : Wait :=
  runCallback isMobile now readyState (fst e) (setTimers (dequeue e (timers w)) w).

(** *** Any interleaving of events and timer expiries *)

Inductive Task :=
| Dispatch (s : Signal)        (* the video element fires an event *)
| Expire (e : Timer * N).      (* a pending timer runs *)

Record Tick := mkTick {
  tickTime : N;
  tickReadyState : nat;     (* video.readyState when the task runs *)
  tickTask : Task
}.

Definition exec (isMobile : bool) (k : Tick) (w : Wait) : Wait :=
  match tickTask k with
  | Dispatch s => dispatch isMobile (tickTime k) s w
  | Expire e =>
      if decide (e ∈ timers w)
      then fireEntry isMobile (tickTime k) (tickReadyState k) e w
      else w
  end.

Definition execAll (isMobile : bool) (ks : list Tick) (w : Wait) : Wait :=
  fold_left (fun w k => exec isMobile k w) ks w.

(** *** The timed run: timers expire exactly when due

    The browser is a list of video events, each with its delay since the
    previous one, the [readyState] the element shows at each instant, and
    which of a timer and an event falling on the same millisecond runs
    first. *)

Record MediaTimeline := mkTimeline {
  events : list (N * Signal);
  readyStateAt : N -> nat;
  timersFirst : bool
}.

(** The pending timer that is due first (registration order on ties). *)
Fixpoint earliest (l : list (Timer * N)) : option (Timer * N) :=
  match l with
  | [] => None
  | e :: l' =>
      match earliest l' with
      | Some e' => if (snd e' <? snd e)%N then Some e' else Some e
      | None => Some e
      end
  end.

Definition dueBefore (tl : MediaTimeline) (limit : option N) (due : N) : bool :=
  match limit with
  | None => true
  | Some t => if timersFirst tl then (due <=? t)%N else (due <? t)%N
  end.

(** Run the timers that are due before [limit], earliest first.  An attempt
    owns at most three timers, which bounds the loop. *)
Fixpoint fireDue (fuel : nat) (isMobile : bool) (tl : MediaTimeline)
    (limit : option N) (w : Wait) : Wait :=
  match fuel with
  | 0 => w
  | S fuel' =>
      match earliest (timers w) with
      | Some e =>
          if dueBefore tl limit (snd e)
          then fireDue fuel' isMobile tl limit
                 (fireEntry isMobile (snd e) (readyStateAt tl (snd e)) e w)
          else w
      | None => w
      end
  end.

Fixpoint runEvents (isMobile : bool) (tl : MediaTimeline) (now : N)
    (evs : list (N * Signal)) (w : Wait) : Wait :=
  match evs with
  | [] => fireDue 3 isMobile tl None w
  | (d, s) :: evs' =>
      let t := (now + d)%N in
      runEvents isMobile tl t evs'
        (dispatch isMobile t s (fireDue 3 isMobile tl (Some t) w))
  end.

Definition runWait (isMobile : bool) (tl : MediaTimeline) : Wait :=
  runEvents isMobile tl 0%N (events tl) (executor isMobile 0%N).

(** ** Host objects and the component's state *)

(** A [MediaStream]: its identity and the ids of its tracks ([getTracks()]). *)
Record MediaStream := mkStream { streamId : nat; tracks : list nat }.

(** How a [getUserMedia] call ends.  The platform resolves with a stream;
    the source still guards [if (stream)], so a falsy resolution is kept
    representable. *)
Inductive GumOutcome :=
| GumResolved (stream : option MediaStream)
| GumRejected (e : JsError).

Record VideoElement := mkVideoElement {
  srcObject : option MediaStream;
  muted : bool;
  attributes : gmap string string
}.

(** One RGBA pixel, as the four entries of an [ImageData.data] array. *)
Record Pixel := mkPixel { red : nat; green : nat; blue : nat; alpha : nat }.

Definition transparentBlack : Pixel := mkPixel 0 0 0 0.

Record Canvas := mkCanvas {
  canvasWidth : nat;
  canvasHeight : nat;
  bitmap : nat -> nat -> Pixel      (* column, row *)
}.

(** The props of the component that the operations read, in pixels. *)
Record Props := mkProps { width : nat; height : nat }.

Definition defaultProps : Props := mkProps 320 240.

Record State := mkState {
  (* useState *)
  isLoading : bool;
  isActive : bool;
  error : option string;
  hasPermission : option bool;
  (* useRef: the mounted elements (by identity for the canvas) and the stream *)
  videoRef : option VideoElement;
  canvasRef : option nat;
  streamRef : option MediaStream;
  (* the page: canvas elements by identity, and the tracks stopped so far *)
  canvases : gmap nat Canvas;
  stoppedTracks : gset nat;
  (* calls seen by the host and by the callback props *)
  gumLog : list (MediaStreamConstraints * GumOutcome);
  cameraReadyLog : list bool;       (* onCameraReady(ready) *)
  errorLog : list string;           (* onError(message) *)
  sleepLog : list N                 (* setTimeout waits awaited by capture *)
}.

Definition setIsLoading (b : bool) (st : State) : State :=
  mkState b (isActive st) (error st) (hasPermission st) (videoRef st)
    (canvasRef st) (streamRef st) (canvases st) (stoppedTracks st)
    (gumLog st) (cameraReadyLog st) (errorLog st) (sleepLog st).

Definition setIsActive (b : bool) (st : State) : State :=
  mkState (isLoading st) b (error st) (hasPermission st) (videoRef st)
    (canvasRef st) (streamRef st) (canvases st) (stoppedTracks st)
    (gumLog st) (cameraReadyLog st) (errorLog st) (sleepLog st).

Definition setError (e : option string) (st : State) : State :=
  mkState (isLoading st) (isActive st) e (hasPermission st) (videoRef st)
    (canvasRef st) (streamRef st) (canvases st) (stoppedTracks st)
    (gumLog st) (cameraReadyLog st) (errorLog st) (sleepLog st).

Definition setHasPermission (p : option bool) (st : State) : State :=
  mkState (isLoading st) (isActive st) (error st) p (videoRef st)
    (canvasRef st) (streamRef st) (canvases st) (stoppedTracks st)
    (gumLog st) (cameraReadyLog st) (errorLog st) (sleepLog st).

Definition setVideoRef (v : option VideoElement) (st : State) : State :=
  mkState (isLoading st) (isActive st) (error st) (hasPermission st) v
    (canvasRef st) (streamRef st) (canvases st) (stoppedTracks st)
    (gumLog st) (cameraReadyLog st) (errorLog st) (sleepLog st).

Definition setStreamRef (s : option MediaStream) (st : State) : State :=
  mkState (isLoading st) (isActive st) (error st) (hasPermission st)
    (videoRef st) (canvasRef st) s (canvases st) (stoppedTracks st)
    (gumLog st) (cameraReadyLog st) (errorLog st) (sleepLog st).

Definition setCanvases (m : gmap nat Canvas) (st : State) : State :=
  mkState (isLoading st) (isActive st) (error st) (hasPermission st)
    (videoRef st) (canvasRef st) (streamRef st) m (stoppedTracks st)
    (gumLog st) (cameraReadyLog st) (errorLog st) (sleepLog st).

Definition setStoppedTracks (s : gset nat) (st : State) : State :=
  mkState (isLoading st) (isActive st) (error st) (hasPermission st)
    (videoRef st) (canvasRef st) (streamRef st) (canvases st) s
    (gumLog st) (cameraReadyLog st) (errorLog st) (sleepLog st).

Definition setGumLog (l : list (MediaStreamConstraints * GumOutcome))
    (st : State) : State :=
  mkState (isLoading st) (isActive st) (error st) (hasPermission st)
    (videoRef st) (canvasRef st) (streamRef st) (canvases st)
    (stoppedTracks st) l (cameraReadyLog st) (errorLog st) (sleepLog st).

Definition setCameraReadyLog (l : list bool) (st : State) : State :=
  mkState (isLoading st) (isActive st) (error st) (hasPermission st)
    (videoRef st) (canvasRef st) (streamRef st) (canvases st)
    (stoppedTracks st) (gumLog st) l (errorLog st) (sleepLog st).

Definition setErrorLog (l : list string) (st : State) : State :=
  mkState (isLoading st) (isActive st) (error st) (hasPermission st)
    (videoRef st) (canvasRef st) (streamRef st) (canvases st)
    (stoppedTracks st) (gumLog st) (cameraReadyLog st) l (sleepLog st).

Definition setSleepLog (l : list N) (st : State) : State :=
  mkState (isLoading st) (isActive st) (error st) (hasPermission st)
    (videoRef st) (canvasRef st) (streamRef st) (canvases st)
    (stoppedTracks st) (gumLog st) (cameraReadyLog st) (errorLog st) l.

(** ** Asynchronous computations over the component's state

    An [async] body either returns, throws, or never resumes because it
    awaits a promise that does not settle. *)

Inductive Outcome (A : Type) :=
| Return (a : A)
| Throw (e : Thrown)
| Hang.

Arguments Return {A} a.
Arguments Throw {A} e.
Arguments Hang {A}.

Definition Async (A : Type) : Type := State -> Outcome A * State.

Definition ret {A} (a : A) : Async A := fun st => (Return a, st).

Definition throw {A} (e : Thrown) : Async A := fun st => (Throw e, st).

Definition bind {A B} (m : Async A) (k : A -> Async B) : Async B :=
  fun st =>
    match m st with
    | (Return a, st') => k a st'
    | (Throw e, st') => (Throw e, st')
    | (Hang, st') => (Hang, st')
    end.

Definition get : Async State := fun st => (Return st, st).

Definition modify (f : State -> State) : Async unit :=
  fun st => (Return tt, f st).

(** [try { body } catch (error) { handler }] *)
Definition tryCatch {A} (body : Async A) (handler : Thrown -> Async A)
    : Async A :=
  fun st =>
    match body st with
    | (Throw e, st') => handler e st'
    | r => r
    end.

(** [try { body } finally { cleanup }], for a cleanup that neither throws
    nor returns. *)
Definition tryFinally {A} (body : Async A) (cleanup : State -> State)
    : Async A :=
  fun st =>
    match body st with
    | (Hang, st') => (Hang, st')
    | (r, st') => (r, cleanup st')
    end.

Declare Scope async_scope.
Delimit Scope async_scope with async.

Notation "x <- m ;; k" := (bind m (fun x => k))
  (at level 100, m at next level, right associativity) : async_scope.
Notation "m ;; k" := (bind m (fun _ => k))
  (at level 100, right associativity) : async_scope.

Local Open Scope async_scope.

(** The callback props, when provided, observe these calls. *)
Definition onCameraReady (ready : bool) : Async unit :=
  modify (fun st => setCameraReadyLog (cameraReadyLog st ++ [ready]) st).

Definition onErrorProp (msg : string) : Async unit :=
  modify (fun st => setErrorLog (errorLog st ++ [msg]) st).

(** ** The browser, as seen by one call of an operation *)

Module Access.

(** The result object of [checkCameraAccess]. *)
Record Check := mkCheck { available : bool; error : option string }.

End Access.

Inductive ProbeOutcome :=
| ProbeReturns (c : Access.Check)
| ProbeThrows (e : Thrown).

Inductive DrawOutcome :=
| Painted (frame : nat -> nat -> Pixel)   (* the pixels the canvas then holds *)
| DrawThrows (e : Thrown).

Record Browser := mkBrowser {
  userAgent : string;                     (* navigator.userAgent *)
  checkCameraAccess : ProbeOutcome;
  (* navigator.mediaDevices.getUserMedia, given the calls made so far *)
  getUserMedia : list (MediaStreamConstraints * GumOutcome) ->
                 MediaStreamConstraints -> GumOutcome;
  timeline : MediaTimeline;               (* what the video element does next *)
  (* the video element as capture reads it *)
  readyState : nat;
  readyStateAfterWait : nat;
  videoWidth : nat;
  videoHeight : nat;
  clientWidth : nat;
  clientHeight : nat;
  (* the canvas API *)
  context2d : bool;                       (* getContext('2d') is not null *)
  drawImage : DrawOutcome;
  getImageDataThrows : option Thrown
}.

(** ** startCamera *)

(** [await checkCameraAccess()] *)
Definition awaitCheckCameraAccess (b : Browser) : Async Access.Check :=
  match checkCameraAccess b with
  | ProbeReturns c => ret c
  | ProbeThrows e => throw e
  end.

(** [await navigator.mediaDevices.getUserMedia(c)], with the inner
    [try]/[catch] of the loop reflected in the returned outcome. *)
Definition callGetUserMedia (b : Browser) (c : MediaStreamConstraints)
    : Async GumOutcome :=
  fun st =>
    let o := getUserMedia b (gumLog st) c in
    (Return o, setGumLog (gumLog st ++ [(c, o)]) st).

(** The [for] loop over [constraintOptions], from index [i] on: the
    remaining candidates and the loop variables [stream] (returned) and
    [lastError]. *)
Fixpoint tryConstraintOptions (b : Browser)
    (options : list MediaStreamConstraints) (lastError : option JsError)
    : Async (option MediaStream * option JsError) :=
  match options with
  | [] => ret (None, lastError)
  | c :: rest =>
      r <- callGetUserMedia b c ;;
      match r with
      | GumResolved (Some stream) => ret (Some stream, lastError)   (* break *)
      | GumResolved None => tryConstraintOptions b rest lastError
      | GumRejected e =>
          (* lastError = error *)
          if String.eqb (name e) "NotAllowedError"
          then throw (ThrownError e)
          else tryConstraintOptions b rest (Some e)
      end
  end.

Definition setAttribute (k v : string) (el : VideoElement) : VideoElement :=
  mkVideoElement (srcObject el) (muted el) (<[k := v]> (attributes el)).

Definition setMuted (m : bool) (el : VideoElement) : VideoElement :=
  mkVideoElement (srcObject el) m (attributes el).

Definition setSrcObject (s : option MediaStream) (el : VideoElement)
    : VideoElement :=
  mkVideoElement s (muted el) (attributes el).

(** The statements between [const video = videoRef.current] and
    [video.srcObject = stream]. *)
Definition configureVideo (stream : MediaStream) (el : VideoElement)
    : VideoElement :=
  let el := setAttribute "playsinline" "true" el in
  let el := setAttribute "webkit-playsinline" "true" el in
  let el := setAttribute "autoplay" "true" el in
  let el := setMuted true el in
  setSrcObject (Some stream) el.

(** [await new Promise<void>(...)]: the outcome of the readiness wait on
    the browser's timeline. *)
Definition awaitReady (isMobile : bool) (b : Browser) : Async unit :=
  fun st =>
    match promise (runWait isMobile (timeline b)) with
    | Fulfilled => (Return tt, st)
    | Rejected reason => (Throw (ThrownError reason), st)
    | Pending => (Hang, st)
    end.

(** The [try] block. *)
Definition startBody (b : Browser) : Async bool :=
  modify (setIsLoading true) ;;
  modify (setError None) ;;
  accessCheck <- awaitCheckCameraAccess b ;;
  if negb (Access.available accessCheck) then
    let errorMsg := optOrElse (Access.error accessCheck) "Camera not available" in
    modify (setError (Some errorMsg)) ;;
    onErrorProp errorMsg ;;
    modify (setHasPermission (Some false)) ;;
    ret false
  else
    modify (setHasPermission (Some true)) ;;
    let isMobile := isMobileUA (userAgent b) in
    r <- tryConstraintOptions b (constraintOptions isMobile) None ;;
    match r with
    | (None, lastError) =>
        throw (ThrownError
                 (match lastError with
                  | Some e => e
                  | None => newError "Failed to access any camera configuration"
                  end))
    | (Some stream, _) =>
        st <- get ;;
        match videoRef st with
        | Some el =>
            modify (setVideoRef (Some (configureVideo stream el))) ;;
            modify (setStreamRef (Some stream)) ;;
            awaitReady isMobile b ;;
            modify (setIsActive true) ;;
            onCameraReady true ;;
            ret true
        | None => ret false
        end
    end.

Definition deniedMessage : string :=
  "Camera access denied. Please allow camera permissions and try again.".
Definition notFoundMessage : string := "No camera found on this device.".
Definition inUseMessage : string :=
  "Camera is already in use by another application.".
Definition genericMessage : string := "Failed to access camera".

(** The [catch (error)] block. *)
Definition startCatch (error : Thrown) : Async bool :=
  errorMessage <-
    match error with
    | ThrownError e =>
        if String.eqb (name e) "NotAllowedError" then
          modify (setHasPermission (Some false)) ;;
          ret deniedMessage
        else if String.eqb (name e) "NotFoundError" then ret notFoundMessage
        else if String.eqb (name e) "NotReadableError" then ret inUseMessage
        else ret (orElse (message e) genericMessage)
    | ThrownOther => ret genericMessage
    end ;;
  modify (setError (Some errorMessage)) ;;
  onErrorProp errorMessage ;;
  modify (setHasPermission (Some false)) ;;
  ret false.

Definition startCamera (b : Browser) : Async bool :=
  tryFinally (tryCatch (startBody b) startCatch) (setIsLoading false).

(** ** stopCamera *)

(** [track.stop()] *)
Definition stopTrack (st : State) (track : nat) : State :=
  setStoppedTracks ({[track]} ∪ stoppedTracks st) st.

Definition stopCamera : Async unit :=
  st <- get ;;
  match streamRef st with
  | Some stream =>
      modify (fun st => fold_left stopTrack (tracks stream) st) ;;
      modify (setStreamRef None)
  | None => ret tt
  end ;;
  st <- get ;;
  match videoRef st with
  | Some el => modify (setVideoRef (Some (setSrcObject None el)))
  | None => ret tt
  end ;;
  modify (setIsActive false) ;;
  onCameraReady false.

(** ** capture *)

(** A canvas element the page has not touched yet is 300 by 150 and
    transparent. *)
Definition clearBitmap : nat -> nat -> Pixel := fun _ _ => transparentBlack.
Definition defaultCanvas : Canvas := mkCanvas 300 150 clearBitmap.

Definition canvasAt (st : State) (h : nat) : Canvas :=
  default defaultCanvas (canvases st !! h).

Definition putCanvas (h : nat) (c : Canvas) : Async unit :=
  modify (fun st => setCanvases (<[h := c]> (canvases st)) st).

(** [canvas.width = w]: resizing resets the bitmap. *)
Definition setCanvasWidth (h w : nat) : Async unit :=
  st <- get ;;
  putCanvas h (mkCanvas w (canvasHeight (canvasAt st h)) clearBitmap).

Definition setCanvasHeight (h ht : nat) : Async unit :=
  st <- get ;;
  putCanvas h (mkCanvas (canvasWidth (canvasAt st h)) ht clearBitmap).

Definition inRect (x y w h : nat) : bool := (x <? w) && (y <? h).

(** The canvas after [context.clearRect(0, 0, w, h)]. *)
Definition cleared (w ht : nat) (c : Canvas) : Canvas :=
  mkCanvas (canvasWidth c) (canvasHeight c)
    (fun x y => if inRect x y w ht then transparentBlack else bitmap c x y).

Definition clearRect (h w ht : nat) : Async unit :=
  st <- get ;;
  putCanvas h (cleared w ht (canvasAt st h)).

(** The canvas after [context.drawImage(video, 0, 0, w, h)] painted
    [frame] into the rectangle. *)
Definition painted (frame : nat -> nat -> Pixel) (w ht : nat) (c : Canvas)
    : Canvas :=
  mkCanvas (canvasWidth c) (canvasHeight c)
    (fun x y => if inRect x y w ht then frame x y else bitmap c x y).

Definition drawImageOnto (b : Browser) (h w ht : nat) : Async unit :=
  match drawImage b with
  | Painted frame =>
      st <- get ;;
      putCanvas h (painted frame w ht (canvasAt st h))
  | DrawThrows e => throw e
  end.

(** The pixel read back at a position; outside the canvas it is
    transparent black. *)
Definition pixelAt (c : Canvas) (x y : nat) : Pixel :=
  if inRect x y (canvasWidth c) (canvasHeight c) then bitmap c x y
  else transparentBlack.

Definition channels (p : Pixel) : list nat := [red p; green p; blue p; alpha p].

(** The [data] array of [getImageData(sx, sy, sw, sh)]: rows top to bottom,
    four entries per pixel. *)
Definition imageData (c : Canvas) (sx sy sw sh : nat) : list nat :=
  flat_map
    (fun y => flat_map (fun x => channels (pixelAt c (sx + x) (sy + y))) (seq 0 sw))
    (seq 0 sh).

Definition getImageData (b : Browser) (h sx sy sw sh : nat)
    : Async (list nat) :=
  match getImageDataThrows b with
  | Some e => throw e
  | None => st <- get ;; ret (imageData (canvasAt st h) sx sy sw sh)
  end.

(** [array.every((element, index) => ...)] *)
Fixpoint everyFrom {A} (f : A -> nat -> bool) (index : nat) (l : list A)
    : bool :=
  match l with
  | [] => true
  | x :: l' => f x index && everyFrom f (S index) l'
  end.

Definition every {A} (f : A -> nat -> bool) (l : list A) : bool :=
  everyFrom f 0 l.

Definition isBlank (data : list nat) : bool :=
  every (fun channel index => (index mod 4 =? 3) || (channel =? 0)) data.

(** [await new Promise(resolve => setTimeout(resolve, ms))] *)
Definition sleep (ms : N) : Async unit :=
  modify (fun st => setSleepLog (sleepLog st ++ [ms]) st).

(** The readiness check: [true] when capture may go on. *)
Definition checkReady (isMobile : bool) (b : Browser) : Async bool :=
  if readyState b <? 2 then
    if isMobile && (1 <=? readyState b) then
      sleep 500 ;;
      if readyStateAfterWait b <? 2 then ret false else ret true
    else ret false
  else ret true.

(** The dimensions capture settles on ([videoWidth], [videoHeight] after
    the mobile fallback). *)
Definition resolveDimensions (p : Props) (isMobile : bool) (b : Browser)
    : nat * nat :=
  if ((videoWidth b =? 0) || (videoHeight b =? 0)) && isMobile
  then (orElseNat (clientWidth b) (width p), orElseNat (clientHeight b) (height p))
  else (videoWidth b, videoHeight b).

(** The [try] block of capture, on canvas [h]. *)
Definition captureBody (b : Browser) (h vw vh : nat) : Async (option nat) :=
  setCanvasWidth h vw ;;
  setCanvasHeight h vh ;;
  clearRect h vw vh ;;
  drawImageOnto b h vw vh ;;
  data <- getImageData b h 0 0 (Nat.min 10 vw) (Nat.min 10 vh) ;;
  if isBlank data then ret None else ret (Some h).

Definition capture (p : Props) (b : Browser) : Async (option nat) :=
  st <- get ;;
  match videoRef st, canvasRef st with
  | Some _, Some canvas =>
      if negb (isActive st) then ret None
      else
        let isMobile := isMobileUA (userAgent b) in
        ready <- checkReady isMobile b ;;
        if negb ready then ret None
        else
          let '(vw, vh) := resolveDimensions p isMobile b in
          if (vw =? 0) || (vh =? 0) then ret None
          else if negb (context2d b) then ret None
          else tryCatch (captureBody b canvas vw vh) (fun _ => ret None)
  | _, _ => ret None
  end.

(** ** The component over its lifetime *)

(** The state after mounting: nothing started yet. *)
Definition mounted : State :=
  mkState false false None None
    (Some (mkVideoElement None true ∅)) (Some 0) None
    ∅ ∅ [] [] [] [].

Inductive Op :=
| OpStart (b : Browser)
| OpStop
| OpCapture (b : Browser).

(** One operation called through the ref: the state it leaves, and whether
    it was a [startCamera] that returned [true]. *)
Definition runOp (p : Props) (op : Op) (st : State) : State * bool :=
  match op with
  | OpStart b =>
      match startCamera b st with
      | (Return true, st') => (st', true)
      | (_, st') => (st', false)
      end
  | OpStop => (snd (stopCamera st), false)
  | OpCapture b => (snd (capture p b st), false)
  end.

(** A sequence of operations: the final state, and whether some start
    succeeded on the way. *)
Fixpoint runOps (p : Props) (ops : list Op) (st : State) : State * bool :=
  match ops with
  | [] => (st, false)
  | op :: ops' =>
      let '(st1, ok1) := runOp p op st in
      let '(st2, ok2) := runOps p ops' st1 in
      (st2, ok1 || ok2)
  end.

(** ** Invariants of the readiness wait *)

(** Pending timers of one kind. *)
Definition countTimer (t : Timer) (l : list (Timer * N)) : nat :=
  length (filter (fun e => fst e = t) l).

(** Calls of [resolve()] made, plus those a pending stabilisation timer or
    a first readiness signal can still make. *)
Definition resolveCredit (w : Wait) : nat :=
  resolveCalls w + countTimer StabilizeTimer (timers w)
  + (if resolved w then 0 else 1).

(** What bounds the timer loop: pending timers, plus the one [onLoadedData]
    may still add. *)
Definition budgetLeft (w : Wait) : nat :=
  length (timers w) + (if resolved w then 0 else 1).

(** What every state of a wait satisfies, whatever the order of events and
    timers. *)
Record Shape (w : Wait) : Prop := mkShape {
  shape_listeners : resolved w = true -> listeners w = [];
  shape_credit : resolveCredit w <= 1;
  shape_budget : budgetLeft w <= 3;
  shape_ultimate :
    promise w = Pending -> resolved w = false ->
    exists d, (UltimateTimer, d) ∈ timers w;
  shape_stabilize :
    promise w = Pending -> resolved w = true ->
    exists d, (StabilizeTimer, d) ∈ timers w;
  shape_settled : promise w <> Pending -> is_Some (settledAt w)
}.

(** The latest instant at which the promise can settle. *)
Definition settleBound (isMobile : bool) : N :=
  (ultimateMs isMobile + (if isMobile then stabilizeMs else 0))%N.

(** What holds in addition when timers expire exactly when due. *)
Record Timed (isMobile : bool) (w : Wait) : Prop := mkTimed {
  timed_fallback : forall d, (FallbackTimer, d) ∈ timers w -> d = fallbackMs isMobile;
  timed_ultimate : forall d, (UltimateTimer, d) ∈ timers w -> d = ultimateMs isMobile;
  timed_stabilize :
    promise w = Pending ->
    forall d, (StabilizeTimer, d) ∈ timers w -> (d <= settleBound isMobile)%N;
  timed_settled : forall t, settledAt w = Some t -> (t <= settleBound isMobile)%N
}.

(** No pending timer is due before [limit]. *)
Definition Drained (tl : MediaTimeline) (limit : option N) (w : Wait) : Prop :=
  forall e, e ∈ timers w -> dueBefore tl limit (snd e) = false.

(** The promise of [w'] is settled exactly as the promise of [w]. *)
Definition SameSettlement (w w' : Wait) : Prop :=
  promise w' = promise w /\ settledAt w' = settledAt w.

(** No video event arrives within [budget] ms of the start of the wait. *)
Definition quietUntil (budget : N) (tl : MediaTimeline) : Prop :=
  match events tl with
  | [] => True
  | (d, _) :: _ => (budget < d)%N
  end.

(** A readiness signal was taken at some point: either the promise is
    already fulfilled at [d], or the only [resolve()] still owed is due at
    [d]. *)
Definition Fulfilling (d : N) (w : Wait) : Prop :=
  (promise w = Fulfilled /\ settledAt w = Some d)
  \/ (resolved w = true /\ promise w = Pending
      /\ forall d', (StabilizeTimer, d') ∈ timers w -> d' = d).

(** When the shorter fallback finds the element ready. *)
Definition fallbackSettles (isMobile : bool) : N :=
  (fallbackMs isMobile + (if isMobile then stabilizeMs else 0))%N.

(** ** Reading the trace of [getUserMedia] calls *)

(** The call resolved with a live stream. *)
Definition yieldsStream (o : GumOutcome) : bool :=
  match o with
  | GumResolved (Some _) => true
  | _ => false
  end.

(** The call was rejected with a [NotAllowedError]. *)
Definition isDenied (o : GumOutcome) : bool :=
  match o with
  | GumRejected e => String.eqb (name e) "NotAllowedError"
  | GumResolved _ => false
  end.

(** The loop goes on to the next candidate after this outcome. *)
Definition keepsTrying (o : GumOutcome) : bool :=
  negb (yieldsStream o) && negb (isDenied o).

(** The value of [lastError] after a run of attempts. *)
Definition lastRejection (init : option JsError)
    (attempts : list (MediaStreamConstraints * GumOutcome)) : option JsError :=
  fold_left
    (fun le a => match snd a with GumRejected e => Some e | GumResolved _ => le end)
    attempts init.

(** What the loop over [options] did, given the attempts it appended to the
    log and how it ended. *)
Record Ladder (b : Browser) (log : list (MediaStreamConstraints * GumOutcome))
    (options : list MediaStreamConstraints) (lastError : option JsError)
    (attempts : list (MediaStreamConstraints * GumOutcome))
    (out : Outcome (option MediaStream * option JsError)) : Prop := mkLadder {
  ladder_order : map fst attempts = take (length attempts) options;
  ladder_answers :
    forall i c o, attempts !! i = Some (c, o) ->
      o = getUserMedia b (log ++ take i attempts) c;
  ladder_continue :
    forall i c o, attempts !! i = Some (c, o) ->
      S i < length attempts -> keepsTrying o = true;
  ladder_result :
    match out with
    | Return (Some s, le) =>
        (exists c, last attempts = Some (c, GumResolved (Some s)))
        /\ le = lastRejection lastError attempts
    | Return (None, le) =>
        length attempts = length options
        /\ (forall a, a ∈ attempts -> keepsTrying (snd a) = true)
        /\ le = lastRejection lastError attempts
    | Throw t =>
        exists c e, last attempts = Some (c, GumRejected e)
          /\ isDenied (GumRejected e) = true /\ t = ThrownError e
    | Hang => False
    end
}.

(** ** What the [catch] block of [startCamera] leaves behind *)

(** The message the [catch] block settles on. *)
Definition userMessage (t : Thrown) : string :=
  match t with
  | ThrownError e =>
      if String.eqb (name e) "NotAllowedError" then deniedMessage
      else if String.eqb (name e) "NotFoundError" then notFoundMessage
      else if String.eqb (name e) "NotReadableError" then inUseMessage
      else orElse (message e) genericMessage
  | ThrownOther => genericMessage
  end.

(** The state after the [catch] and [finally] blocks ran with [msg]. *)
Definition failed (msg : string) (st : State) : State :=
  setIsLoading false
    (setHasPermission (Some false)
       (setErrorLog (errorLog st ++ [msg]) (setError (Some msg) st))).

(** The state when the [try] block is entered past the permission probe. *)
Definition probed (st : State) : State :=
  setHasPermission (Some true) (setError None (setIsLoading true st)).

(** The state once [stream] is bound to the video element [el]. *)
Definition bound (stream : MediaStream) (el : VideoElement) (st : State)
    : State :=
  setStreamRef (Some stream) (setVideoRef (Some (configureVideo stream el)) st).

(** The state after a start that returned [true]. *)
Definition started (st : State) : State :=
  setIsLoading false
    (setCameraReadyLog (cameraReadyLog st ++ [true]) (setIsActive true st)).

(** How a granted run went: the attempts it made and the state it left. *)
Inductive GrantedRun (b : Browser) (st : State)
    (attempts : list (MediaStreamConstraints * GumOutcome))
    : Outcome bool * State -> Prop :=
| RunStarted stream el c :
    last attempts = Some (c, GumResolved (Some stream)) ->
    videoRef st = Some el ->
    promise (runWait (isMobileUA (userAgent b)) (timeline b)) = Fulfilled ->
    GrantedRun b st attempts
      (Return true,
       started (bound stream el (setGumLog (gumLog st ++ attempts) (probed st))))
| RunNotReady stream el c reason :
    last attempts = Some (c, GumResolved (Some stream)) ->
    videoRef st = Some el ->
    promise (runWait (isMobileUA (userAgent b)) (timeline b)) = Rejected reason ->
    GrantedRun b st attempts
      (Return false,
       failed (userMessage (ThrownError reason))
         (bound stream el (setGumLog (gumLog st ++ attempts) (probed st))))
| RunUnmounted stream c :
    last attempts = Some (c, GumResolved (Some stream)) ->
    videoRef st = None ->
    GrantedRun b st attempts
      (Return false,
       setIsLoading false (setGumLog (gumLog st ++ attempts) (probed st)))
| RunExhausted :
    length attempts = length (constraintOptions (isMobileUA (userAgent b))) ->
    (forall a, a ∈ attempts -> keepsTrying (snd a) = true) ->
    GrantedRun b st attempts
      (Return false,
       failed (userMessage
                 (ThrownError
                    (match lastRejection None attempts with
                     | Some e => e
                     | None => newError "Failed to access any camera configuration"
                     end)))
         (setGumLog (gumLog st ++ attempts) (probed st)))
| RunDenied c e :
    last attempts = Some (c, GumRejected e) ->
    isDenied (GumRejected e) = true ->
    GrantedRun b st attempts
      (Return false,
       failed (userMessage (ThrownError e))
         (setGumLog (gumLog st ++ attempts) (probed st))).

(** ** Reading a captured frame *)

(** The colour channels of a pixel are all zero (alpha is not looked at). *)
Definition rgbZero (p : Pixel) : bool :=
  (red p =? 0) && (green p =? 0) && (blue p =? 0).

(** The canvas as [captureBody] leaves it when [drawImage] throws: resized
    and cleared. *)
Definition clearedCanvas (vw vh : nat) : Canvas :=
  cleared vw vh (mkCanvas vw vh clearBitmap).

(** The canvas as [captureBody] leaves it after painting [frame]. *)
Definition paintedCanvas (vw vh : nat) (frame : nat -> nat -> Pixel) : Canvas :=
  painted frame vw vh (clearedCanvas vw vh).

(** The page with canvas [h] replaced by [c]. *)
Definition withCanvas (h : nat) (c : Canvas) (st : State) : State :=
  setCanvases (<[h := c]> (canvases st)) st.

(** The predicate [isBlank] hands to [every]. *)
Definition blankTest (channel index : nat) : bool :=
  (index mod 4 =? 3) || (channel =? 0).

(** The pixels behind [imageData], row by row. *)
Definition sampledPixels (c : Canvas) (sx sy sw sh : nat) : list Pixel :=
  flat_map (fun y => List.map (fun x => pixelAt c (sx + x) (sy + y)) (seq 0 sw))
    (seq 0 sh).

(** The state after capture awaited a timeout of [ms]. *)
Definition slept (ms : N) (st : State) : State :=
  setSleepLog (sleepLog st ++ [ms]) st.

(** The part of [capture] after the readiness check. *)
Definition captureReady (p : Props) (b : Browser) (h : nat)
    : Async (option nat) :=
  let '(vw, vh) := resolveDimensions p (isMobileUA (userAgent b)) b in
  if (vw =? 0) || (vh =? 0) then ret None
  else if negb (context2d b) then ret None
  else tryCatch (captureBody b h vw vh) (fun _ => ret None).

(** What a successful capture did. *)
Record Captured (p : Props) (b : Browser) (st : State) (h : nat)
    (st' : State) : Prop := mkCaptured {
  captured_canvas : canvasRef st = Some h;
  captured_active : isActive st = true;
  captured_size :
    (canvasWidth (canvasAt st' h), canvasHeight (canvasAt st' h))
    = resolveDimensions p (isMobileUA (userAgent b)) b;
  captured_nonzero : canvasWidth (canvasAt st' h) <> 0
                     /\ canvasHeight (canvasAt st' h) <> 0;
  captured_frame :
    exists frame, drawImage b = Painted frame
      /\ (forall x y, x < canvasWidth (canvasAt st' h) ->
                      y < canvasHeight (canvasAt st' h) ->
                      pixelAt (canvasAt st' h) x y = frame x y)
      /\ exists x y, x < 10 /\ y < 10 /\ rgbZero (frame x y) = false;
  captured_state :
    exists c, st' = withCanvas h c st \/ st' = withCanvas h c (slept 500 st)
}.

(** ** Sample browsers *)

Definition desktopUA : string :=
  "Mozilla/5.0 (X11; Linux x86_64) AppleWebKit/537.36 Chrome/120.0 Safari/537.36".

Definition phoneUA : string :=
  "Mozilla/5.0 (iPhone; CPU iPhone OS 16_0 like Mac OS X) AppleWebKit/605.1.15".

Definition solid (px : Pixel) : nat -> nat -> Pixel := fun _ _ => px.

Definition grey : Pixel := mkPixel 128 128 128 255.

Definition white : Pixel := mkPixel 255 255 255 255.

Definition opaqueBlack : Pixel := mkPixel 0 0 0 255.

Definition webcam : MediaStream := mkStream 7 [70].

Definition notFound : JsError := mkError "NotFoundError" "Requested device not found".

Definition notAllowed : JsError := mkError "NotAllowedError" "Permission denied".

(** The video element plays 400 ms after the stream is attached. *)
Definition playsSoon : MediaTimeline :=
  mkTimeline [(400%N, LoadedData); (5%N, CanPlay)] (fun _ => 4) true.

(** The video element never fires an event and never gets ready. *)
Definition neverPlays : MediaTimeline := mkTimeline [] (fun _ => 0) true.

(** A desktop browser whose third candidate is the first to yield a
    640 by 480 stream; the two before it find no device. *)
Definition thirdCandidateWorks : Browser :=
  mkBrowser desktopUA (ProbeReturns (Access.mkCheck true None))
    (fun log _ => if length log <? 2 then GumRejected notFound
                  else GumResolved (Some webcam))
    playsSoon 4 4 640 480 320 240 true (Painted (solid grey)) None.

(** No candidate finds a device. *)
Definition noCamera : Browser :=
  mkBrowser desktopUA (ProbeReturns (Access.mkCheck true None))
    (fun _ _ => GumRejected notFound)
    playsSoon 0 0 0 0 320 240 true (Painted (solid grey)) None.

(** The user denies the prompt raised by the second candidate. *)
Definition deniesSecond : Browser :=
  mkBrowser desktopUA (ProbeReturns (Access.mkCheck true None))
    (fun log _ => if length log <? 1 then GumRejected notFound
                  else GumRejected notAllowed)
    playsSoon 0 0 0 0 320 240 true (Painted (solid grey)) None.

(** The probe reports that no camera can be used. *)
Definition probeFails : Browser :=
  mkBrowser desktopUA
    (ProbeReturns (Access.mkCheck false (Some "Camera not available")))
    (fun _ _ => GumResolved (Some webcam))
    playsSoon 4 4 640 480 320 240 true (Painted (solid grey)) None.

(** A stream is obtained but the element stays silent. *)
Definition staysSilent (ua : string) : Browser :=
  mkBrowser ua (ProbeReturns (Access.mkCheck true None))
    (fun _ _ => GumResolved (Some webcam))
    neverPlays 0 0 0 0 320 240 true (Painted (solid grey)) None.

(** A phone whose playing element reports no natural size, painting
    [frame]. *)
Definition phoneWithoutSize (frame : nat -> nat -> Pixel) : Browser :=
  mkBrowser phoneUA (ProbeReturns (Access.mkCheck true None))
    (fun _ _ => GumResolved (Some webcam))
    playsSoon 4 4 0 0 320 240 true (Painted frame) None.

(** A desktop browser playing 640 by 480 and painting [frame]. *)
Definition desktopPainting (frame : nat -> nat -> Pixel) : Browser :=
  mkBrowser desktopUA (ProbeReturns (Access.mkCheck true None))
    (fun _ _ => GumResolved (Some webcam))
    playsSoon 4 4 640 480 320 240 true (Painted frame) None.

(** The component after a successful start on the desktop browser. *)
Definition running : State :=
  snd (startCamera (desktopPainting (solid grey)) mounted).

(** The component after a successful start on the phone. *)
Definition runningOnPhone : State :=
  snd (startCamera (phoneWithoutSize (solid grey)) mounted).

(** ** What [stopCamera] leaves behind *)

(** Every track of the held stream stopped, and the handle dropped. *)
Definition releaseStream (st : State) : State :=
  match streamRef st with
  | Some stream => setStreamRef None (fold_left stopTrack (tracks stream) st)
  | None => st
  end.

(** The stream detached from the video element. *)
Definition detachVideo (st : State) : State :=
  match videoRef st with
  | Some el => setVideoRef (Some (setSrcObject None el)) st
  | None => st
  end.

(** [onCameraReady(false)] called once more. *)
Definition notifyStopped (st : State) : State :=
  setCameraReadyLog (cameraReadyLog st ++ [false]) st.

(** The state [stopCamera] leaves. *)
Definition stopped (st : State) : State :=
  notifyStopped (setIsActive false (detachVideo (releaseStream st))).

(** ** The earlier revision kept in the repository

    [src/unnamed/part_000] is an older copy of the same component.  Its
    [stopCamera] and its [catch] block are those above; what differs is
    transcribed here: one constraints object instead of the list, a
    readiness wait without the [resolved] flag, the [canplay] listener and
    the ultimate timeout, and a capture without the mobile paths that
    samples a single pixel. *)

Module Legacy.

(** The [constraints] object of [startCamera]. *)
Definition constraints (isMobile : bool) : MediaStreamConstraints :=
  Media.mkConstraints
    (Media.VideoWith
       (Media.mkVideo
          (Some (Media.FacingPlain "user"))
          (Some (if isMobile then Media.mkRange 480 320 else Media.mkRange 640 320))
          (Some (if isMobile then Media.mkRange 360 240 else Media.mkRange 480 240))
          (Some (Media.mkRange 30 15))))
    false.

Definition removeListeners (w : Wait) : Wait :=
  removeEventListener ErrorEvent (removeEventListener LoadedData w).

Definition onLoadedData (isMobile : bool) (now : N) (w : Wait) : Wait :=
  let w := removeListeners w in
  if isMobile then setTimeout StabilizeTimer (now + 500)%N w
  else resolve now w.

Definition onError (now : N) (w : Wait) : Wait :=
  let w := removeListeners w in
  reject now (newError "Video failed to load") w.

Definition onFallbackTimeout (isMobile : bool) (now : N) (readyState : nat)
    (w : Wait) : Wait :=
  if 2 <=? readyState then onLoadedData isMobile now w else w.

(** The executor body: two listeners and the 3000 ms timeout. *)
Definition executor (now : N) : Wait :=
  let w := mkWait false [] [] Pending None 0 0 in
  let w := addEventListener LoadedData w in
  let w := addEventListener ErrorEvent w in
  setTimeout FallbackTimer (now + 3000)%N w.

Definition dispatch (isMobile : bool) (now : N) (s : Signal) (w : Wait) : Wait :=
  if decide (s ∈ listeners w) then
    match s with
    | LoadedData => onLoadedData isMobile now w
    | ErrorEvent => onError now w
    | CanPlay => w
    end
  else w.

Definition runCallback (isMobile : bool) (now : N) (readyState : nat)
    (t : Timer) (w : Wait) : Wait :=
  match t with
  | FallbackTimer => onFallbackTimeout isMobile now readyState w
  | StabilizeTimer => resolve now w
  | UltimateTimer => w
  end.

Definition exec (isMobile : bool) (k : Tick) (w : Wait) : Wait :=
  match tickTask k with
  | Dispatch s => dispatch isMobile (tickTime k) s w
  | Expire e =>
      if decide (e ∈ timers w)
      then runCallback isMobile (tickTime k) (tickReadyState k) (fst e)
             (setTimers (dequeue e (timers w)) w)
      else w
  end.

Definition execAll (isMobile : bool) (ks : list Tick) (w : Wait) : Wait :=
  fold_left (fun w k => exec isMobile k w) ks w.

(** [imageData.data.every(channel => channel === 0)] *)
Definition isBlank (data : list nat) : bool :=
  every (fun channel _ => channel =? 0) data.

(** [video.videoWidth || width] and [video.videoHeight || height] *)
Definition resolveDimensions (p : Props) (b : Browser) : nat * nat :=
  (orElseNat (videoWidth b) (width p), orElseNat (videoHeight b) (height p)).

Definition captureBody (b : Browser) (h vw vh : nat) : Async (option nat) :=
  setCanvasWidth h vw ;;
  setCanvasHeight h vh ;;
  drawImageOnto b h vw vh ;;
  data <- getImageData b h 0 0 1 1 ;;
  if isBlank data then ret None else ret (Some h).

Definition capture (p : Props) (b : Browser) : Async (option nat) :=
  st <- get ;;
  match videoRef st, canvasRef st with
  | Some _, Some canvas =>
      if negb (isActive st) then ret None
      else if readyState b <? 2 then ret None
      else
        let '(vw, vh) := resolveDimensions p b in
        if (vw =? 0) || (vh =? 0) then ret None
        else if negb (context2d b) then ret None
        else tryCatch (captureBody b canvas vw vh) (fun _ => ret None)
  | _, _ => ret None
  end.

(** The timed run of the earlier wait: timers expire when due, as above.
    An attempt arms the 3000 ms timeout and at most two stabilisation
    timers, which bounds the loop. *)
Definition fireEntry (isMobile : bool) (now : N) (readyState : nat)
    (e : Timer * N) (w : Wait) : Wait :=
  runCallback isMobile now readyState (fst e) (setTimers (dequeue e (timers w)) w).

Fixpoint fireDue (fuel : nat) (isMobile : bool) (tl : MediaTimeline)
    (limit : option N) (w : Wait) : Wait :=
  match fuel with
  | 0 => w
  | S fuel' =>
      match earliest (timers w) with
      | Some e =>
          if dueBefore tl limit (snd e)
          then fireDue fuel' isMobile tl limit
                 (fireEntry isMobile (snd e) (readyStateAt tl (snd e)) e w)
          else w
      | None => w
      end
  end.

Fixpoint runEvents (isMobile : bool) (tl : MediaTimeline) (now : N)
    (evs : list (N * Signal)) (w : Wait) : Wait :=
  match evs with
  | [] => fireDue 3 isMobile tl None w
  | (d, s) :: evs' =>
      let t := (now + d)%N in
      runEvents isMobile tl t evs'
        (dispatch isMobile t s (fireDue 3 isMobile tl (Some t) w))
  end.

Definition runWait (isMobile : bool) (tl : MediaTimeline) : Wait :=
  runEvents isMobile tl 0%N (events tl) (executor 0%N).

(** [await new Promise<void>(...)] *)
Definition awaitReady (isMobile : bool) (b : Browser) : Async unit :=
  fun st =>
    match promise (runWait isMobile (timeline b)) with
    | Fulfilled => (Return tt, st)
    | Rejected reason => (Throw (ThrownError reason), st)
    | Pending => (Hang, st)
    end.

(** The [try] block of the earlier [startCamera]: one [getUserMedia] call,
    whose rejection goes straight to the [catch] block, and whose result is
    bound without being tested. *)
Definition startBody (b : Browser) : Async bool :=
  modify (setIsLoading true) ;;
  modify (setError None) ;;
  accessCheck <- awaitCheckCameraAccess b ;;
  if negb (Access.available accessCheck) then
    let errorMsg := optOrElse (Access.error accessCheck) "Camera not available" in
    modify (setError (Some errorMsg)) ;;
    onErrorProp errorMsg ;;
    modify (setHasPermission (Some false)) ;;
    ret false
  else
    modify (setHasPermission (Some true)) ;;
    let isMobile := isMobileUA (userAgent b) in
    r <- callGetUserMedia b (constraints isMobile) ;;
    match r with
    | GumRejected e => throw (ThrownError e)
    | GumResolved stream =>
        st <- get ;;
        match videoRef st with
        | Some el =>
            modify (setVideoRef (Some (setSrcObject stream el))) ;;
            modify (setStreamRef stream) ;;
            awaitReady isMobile b ;;
            modify (setIsActive true) ;;
            onCameraReady true ;;
            ret true
        | None => ret false
        end
    end.

(** The [catch] and [finally] blocks are those of the current revision. *)
Definition startCamera (b : Browser) : Async bool :=
  tryFinally (tryCatch (startBody b) startCatch) (setIsLoading false).

End Legacy.

(** A second camera stream, and a desktop browser handing it out. *)
Definition secondWebcam : MediaStream := mkStream 8 [80].

Definition desktopWithSecond : Browser :=
  mkBrowser desktopUA (ProbeReturns (Access.mkCheck true None))
    (fun _ _ => GumResolved (Some secondWebcam))
    playsSoon 4 4 640 480 320 240 true (Painted (solid grey)) None.

(** A desktop element that decodes frames but reports no natural size. *)
Definition desktopWithoutSize : Browser :=
  mkBrowser desktopUA (ProbeReturns (Access.mkCheck true None))
    (fun _ _ => GumResolved (Some webcam))
    playsSoon 4 4 0 0 320 240 true (Painted (solid grey)) None.

(** ** The effects, the rendered view and the buttons *)

(** The auto-start effect, [if (autoStart) startCamera()], as the
    operations it calls on mount; its cleanup calls [stopCamera()]. *)
Definition autoStartEffect (autoStart : bool) (b : Browser) : list Op :=
  if autoStart then [OpStart b] else [].

(** The component from mount to unmount: the effect, the operations called
    through the ref or the buttons, each settled before the next is called,
    and the cleanup. *)
Definition lifetime (p : Props) (autoStart : bool) (b : Browser)
    (ops : list Op) : State :=
  fst (runOps p (autoStartEffect autoStart b ++ ops ++ [OpStop]) mounted).

(** A value of type [string | null] used as a condition. *)
Definition truthy (s : option string) : bool :=
  match s with
  | Some s => negb (String.eqb s "")
  | None => false
  end.

(** What the returned JSX displays. *)
Record View := mkView {
  videoShown : bool;            (* the video has class 'block', not 'hidden' *)
  loadingPanel : bool;          (* "Starting camera..." *)
  errorPanel : option string;   (* the message displayed *)
  retryButton : bool;           (* "Try Again" *)
  startButton : bool;           (* "Start Camera" *)
  guideOverlay : bool           (* the face guide and its instructions *)
}.

Definition render (autoStart : bool) (st : State) : View :=
  let showError := truthy (error st) && negb (isLoading st) in
  mkView
    (isActive st)
    (isLoading st)
    (if showError then error st else None)
    (showError && match hasPermission st with Some false => true | _ => false end)
    (negb (isActive st) && negb (isLoading st) && negb (truthy (error st))
       && negb autoStart)
    (isActive st).

(** [onClick] of "Try Again": [setError(null); startCamera()]. *)
Definition onRetryClick (b : Browser) : Async bool :=
  modify (setError None) ;;
  startCamera b.

(** ** Page visibility *)

(** What [handleVisibilityChange] does to the video element: [pause()],
    [play()], and the [console.warn] a rejected [play()] ends in. *)
Inductive MediaCall :=
| Pause
| Play
| Warn (e : Thrown).

(** A [visibilitychange] event: [document.hidden] when it fires, and the
    rejection of [video.play()], if any. *)
Record VisibilityChange := mkChange {
  hidden : bool;
  playRejects : option Thrown
}.

Definition handleVisibilityChange (ch : VisibilityChange) (st : State)
    (calls : list MediaCall) : list MediaCall :=
  if hidden ch && isActive st then
    match videoRef st with
    | Some _ => calls ++ [Pause]
    | None => calls
    end
  else if negb (hidden ch) && isActive st then
    match videoRef st with
    | Some _ =>
        calls ++ Play :: match playRejects ch with
                         | Some e => [Warn e]
                         | None => []
                         end
    | None => calls
    end
  else calls.

(** Several changes while the component stays in state [st]. *)
Definition visibilityChanges (st : State) (chs : list VisibilityChange)
    (calls : list MediaCall) : list MediaCall :=
  fold_left (fun cs ch => handleVisibilityChange ch st cs) chs calls.

(** ** Streams over the component's life *)

(** The streams [getUserMedia] has handed out so far. *)
Definition streamsHandedOut (st : State) : list MediaStream :=
  omap (fun a => match snd a with
                 | GumResolved (Some s) => Some s
                 | _ => None
                 end) (gumLog st).

(** Every track of the stream has been stopped. *)
Definition released (st : State) (s : MediaStream) : Prop :=
  Forall (fun t => t ∈ stoppedTracks st) (tracks s).

#[global] Instance released_dec st s : Decision (released st s).
Proof. unfold released. apply _. Defined.

(** Every stream handed out is the one held in [streamRef] or has been
    released. *)
Definition Accounted (st : State) : Prop :=
  Forall (fun s => streamRef st = Some s \/ released st s) (streamsHandedOut st).

(** [startCamera] is only called while no stream is held. *)
Fixpoint startsWhenIdle (p : Props) (ops : list Op) (st : State) : bool :=
  match ops with
  | [] => true
  | op :: ops' =>
      match op, streamRef st with
      | OpStart _, Some _ => false
      | _, _ => startsWhenIdle p ops' (fst (runOp p op st))
      end
  end.

(** The same browser reporting another user agent. *)
Definition withUserAgent (ua : string) (b : Browser) : Browser :=
  mkBrowser ua (checkCameraAccess b) (getUserMedia b) (timeline b)
    (readyState b) (readyStateAfterWait b) (videoWidth b) (videoHeight b)
    (clientWidth b) (clientHeight b) (context2d b) (drawImage b)
    (getImageDataThrows b).

(** [capture] goes past its readiness check. *)
Definition passesReadiness (isMobile : bool) (b : Browser) : bool :=
  (2 <=? readyState b)
  || (isMobile && (readyState b =? 1) && (2 <=? readyStateAfterWait b)).

(** A timeline on which nothing happens before the event [s] at [d]. *)
Definition firstEvent (tl : MediaTimeline) (d : N) (s : Signal) : Prop :=
  exists evs, events tl = (d, s) :: evs.

(** Count a [canplay] event as the [loadeddata] event. *)
Definition asLoadedData (k : Tick) : Tick :=
  match tickTask k with
  | Dispatch CanPlay => mkTick (tickTime k) (tickReadyState k) (Dispatch LoadedData)
  | _ => k
  end.

(** * Properties *)

Local Open Scope list_scope.

(** ** The readiness wait *)

Lemma filter_all_signals (l : list Signal) :
  filter (fun x => x <> ErrorEvent)
    (filter (fun x => x <> CanPlay)
       (filter (fun x => x <> LoadedData) l)) = [].
Proof.
  induction l as [|s l IH]; [reflexivity|].
  destruct s; repeat (rewrite filter_cons; case_decide; try congruence); auto.
Qed.

Lemma removeAllListeners_eq w : removeAllListeners w = setListeners [] w.
Proof.
  unfold removeAllListeners, removeEventListener, setListeners. simpl.
  rewrite filter_all_signals. reflexivity.
Qed.

(** *** The timer queue *)

Lemma countTimer_nil t : countTimer t [] = 0.
Proof. reflexivity. Qed.

Lemma countTimer_cons t e l :
  countTimer t (e :: l) = (if decide (fst e = t) then 1 else 0) + countTimer t l.
Proof.
  unfold countTimer. rewrite filter_cons. case_decide; reflexivity.
Qed.

Lemma countTimer_app t l1 l2 :
  countTimer t (l1 ++ l2) = countTimer t l1 + countTimer t l2.
Proof. unfold countTimer. rewrite filter_app, length_app. reflexivity. Qed.

Lemma dequeue_length e l :
  e ∈ l -> S (length (dequeue e l)) = length l.
Proof.
  induction l as [|x l IH]; intros Hin.
  - inversion Hin.
  - simpl. destruct (decide (x = e)); [reflexivity|].
    simpl. f_equal. apply IH.
    apply elem_of_cons in Hin as [->|Hin]; [congruence|assumption].
Qed.

Lemma dequeue_count t e l :
  e ∈ l ->
  countTimer t (dequeue e l) + (if decide (fst e = t) then 1 else 0)
  = countTimer t l.
Proof.
  induction l as [|x l IH]; intros Hin.
  - inversion Hin.
  - simpl. destruct (decide (x = e)) as [Hx|Hx].
    + subst x. rewrite countTimer_cons. lia.
    + rewrite !countTimer_cons.
      apply elem_of_cons in Hin as [->|Hin]; [congruence|].
      specialize (IH Hin). lia.
Qed.

Lemma dequeue_subset e x l : x ∈ dequeue e l -> x ∈ l.
Proof.
  induction l as [|y l IH]; simpl; [auto|].
  destruct (decide (y = e)).
  - intros. apply elem_of_cons. auto.
  - intros Hx. apply elem_of_cons in Hx as [->|Hx];
      apply elem_of_cons; auto.
Qed.

Lemma dequeue_other e x l : x ∈ l -> x <> e -> x ∈ dequeue e l.
Proof.
  induction l as [|y l IH]; simpl; [auto|].
  intros Hx Hne. destruct (decide (y = e)).
  - subst y. apply elem_of_cons in Hx as [->|Hx]; [congruence|assumption].
  - apply elem_of_cons in Hx as [->|Hx]; apply elem_of_cons; auto.
Qed.

Lemma earliest_elem l e : earliest l = Some e -> e ∈ l.
Proof.
  revert e. induction l as [|x l IH]; simpl; intros e He; [discriminate|].
  destruct (earliest l) as [e'|].
  - destruct (snd e' <? snd x)%N; inversion He; subst.
    + apply elem_of_cons. right. auto.
    + apply elem_of_cons. left. reflexivity.
  - inversion He. apply elem_of_cons. left. reflexivity.
Qed.

Lemma earliest_min l e x :
  earliest l = Some e -> x ∈ l -> (snd e <= snd x)%N.
Proof.
  revert e. induction l as [|y l IH]; simpl; intros e He Hx; [discriminate|].
  destruct (earliest l) as [e'|] eqn:E.
  - specialize (IH e' eq_refl).
    destruct (snd e' <? snd y)%N eqn:C; inversion He; subst.
    + apply N.ltb_lt in C.
      apply elem_of_cons in Hx as [->|Hx]; [lia|auto].
    + apply N.ltb_ge in C.
      apply elem_of_cons in Hx as [->|Hx]; [lia|].
      specialize (IH Hx). lia.
  - inversion He; subst.
    apply elem_of_cons in Hx as [->|Hx]; [lia|].
    destruct l; [inversion Hx|]. simpl in E.
    destruct (earliest l); [destruct (_ <? _)%N|]; discriminate.
Qed.

Lemma earliest_none l : earliest l = None -> l = [].
Proof.
  destruct l as [|x l]; [reflexivity|]. simpl.
  destruct (earliest l); [destruct (_ <? _)%N|]; discriminate.
Qed.

Lemma dueBefore_mono tl limit d1 d2 :
  (d1 <= d2)%N -> dueBefore tl limit d1 = false -> dueBefore tl limit d2 = false.
Proof.
  unfold dueBefore. destruct limit as [t|]; [|discriminate].
  destruct (timersFirst tl); intros Hle H.
  - apply N.leb_gt in H. apply N.leb_gt. lia.
  - apply N.ltb_ge in H. apply N.ltb_ge. lia.
Qed.

(** *** The shape of a wait, kept by every task *)

Lemma shape_executor isMobile now : Shape (executor isMobile now).
Proof.
  split; simpl; try discriminate; try congruence.
  - unfold resolveCredit; simpl. reflexivity.
  - unfold budgetLeft; simpl. lia.
  - intros _ _. eexists. apply elem_of_cons. right. apply elem_of_cons. left. reflexivity.
Qed.

Lemma shape_onLoadedData isMobile now w :
  Shape w -> Shape (onLoadedData isMobile now w).
Proof.
  intros HS. unfold onLoadedData.
  destruct (resolved w) eqn:R; [exact HS|].
  destruct HS as [Hl Hc Hb Hu Hs Hp].
  rewrite removeAllListeners_eq.
  unfold resolveCredit, budgetLeft in *. rewrite R in *.
  destruct isMobile.
  - split; simpl; auto; try congruence.
    + unfold resolveCredit; simpl.
      rewrite countTimer_app, countTimer_cons, countTimer_nil. simpl.
      lia.
    + unfold budgetLeft; simpl. rewrite length_app. simpl. lia.
    + intros _ _. eexists. apply elem_of_app. right. apply elem_of_cons. left. reflexivity.
  - unfold resolve; simpl.
    destruct (promise w) eqn:P; split; simpl; auto; try congruence;
      try (unfold resolveCredit; simpl; lia); try (unfold budgetLeft; simpl; lia);
      try (intros; eexists; reflexivity).
    all: intros _; apply Hp; congruence.
Qed.

Lemma shape_onError now w : Shape w -> Shape (onError now w).
Proof.
  intros HS. unfold onError.
  destruct (resolved w) eqn:R; [exact HS|].
  destruct HS as [Hl Hc Hb Hu Hs Hp].
  rewrite removeAllListeners_eq.
  unfold resolveCredit, budgetLeft in *. rewrite R in *.
  unfold reject; simpl.
  destruct (promise w) eqn:P; split; simpl; auto; try congruence;
    try (unfold resolveCredit; simpl; lia); try (unfold budgetLeft; simpl; lia);
    try (intros; eexists; reflexivity).
  all: intros _; apply Hp; congruence.
Qed.

Create HintDb wait.

#[local] Hint Resolve shape_executor shape_onLoadedData shape_onError : wait.

Lemma shape_dispatch isMobile now s w :
  Shape w -> Shape (dispatch isMobile now s w).
Proof.
  intros HS. unfold dispatch, onCanPlay.
  case_decide; [|exact HS].
  destruct s; [| destruct (resolved w) |]; auto with wait.
Qed.

Lemma budget_onLoadedData isMobile now w :
  budgetLeft (onLoadedData isMobile now w) <= budgetLeft w.
Proof.
  unfold onLoadedData, budgetLeft.
  destruct (resolved w) eqn:R; [rewrite R; lia|].
  rewrite removeAllListeners_eq.
  destruct isMobile; simpl.
  - rewrite length_app. simpl. lia.
  - unfold resolve; simpl. destruct (promise w); simpl; lia.
Qed.

Lemma shape_dequeue e w :
  Shape w -> e ∈ timers w ->
  fst e <> StabilizeTimer ->
  (fst e = UltimateTimer -> resolved w = true) ->
  Shape (setTimers (dequeue e (timers w)) w).
Proof.
  intros [Hl Hc Hb Hu Hs Hp] Hin Hne Hult.
  pose proof (dequeue_length e (timers w) Hin) as Hlen.
  pose proof (dequeue_count StabilizeTimer e (timers w) Hin) as Hcnt.
  destruct (decide (fst e = StabilizeTimer)); [congruence|].
  split; simpl; auto.
  - unfold resolveCredit in *; simpl; lia.
  - unfold budgetLeft in *; simpl; lia.
  - intros P R. destruct (Hu P R) as [d Hd]. exists d.
    apply dequeue_other; [assumption|].
    intros <-. simpl in Hult. specialize (Hult eq_refl). congruence.
  - intros P R. destruct (Hs P R) as [d Hd]. exists d.
    apply dequeue_other; [assumption|].
    intros <-. simpl in Hne. congruence.
Qed.

Lemma shape_fireEntry isMobile now rs e w :
  Shape w -> e ∈ timers w ->
  Shape (fireEntry isMobile now rs e w)
  /\ budgetLeft (fireEntry isMobile now rs e w) < budgetLeft w.
Proof.
  intros HS Hin.
  pose proof (dequeue_length e (timers w) Hin) as Hlen.
  pose proof (dequeue_count StabilizeTimer e (timers w) Hin) as Hcnt.
  pose proof (shape_dequeue e w HS Hin) as HS'.
  unfold fireEntry.
  destruct e as [t due]; simpl in *.
  destruct t; simpl.
  - (* fallback *)
    assert (HS2 : Shape (setTimers (dequeue (FallbackTimer, due) (timers w)) w))
      by (apply HS'; discriminate).
    unfold onFallbackTimeout.
    match goal with |- context [if ?c then _ else _] => destruct c end.
    + split; [apply shape_onLoadedData; exact HS2|].
      eapply Nat.le_lt_trans; [apply budget_onLoadedData|].
      unfold budgetLeft; simpl. lia.
    + split; [exact HS2|]. unfold budgetLeft; simpl. lia.
  - (* ultimate *)
    unfold onUltimateTimeout; simpl.
    destruct (resolved w) eqn:R; simpl.
    + split; [apply HS'; [discriminate|reflexivity]|].
      unfold budgetLeft; simpl. rewrite R. lia.
    + destruct HS as [Hl Hc Hb Hu Hs Hp].
      unfold reject; simpl.
      destruct (promise w) eqn:P; (split; [split|]); simpl; rewrite ?R; auto;
        try congruence;
        try (unfold resolveCredit in *; simpl; rewrite R in *; lia);
        try (unfold budgetLeft in *; simpl; rewrite R in *; lia);
        try (intros; eexists; reflexivity).
      all: intros _; apply Hp; congruence.
  - (* stabilization *)
    destruct HS as [Hl Hc Hb Hu Hs Hp].
    unfold resolve; simpl.
    rewrite decide_True in Hcnt by reflexivity.
    assert (R : resolved w = true).
    { unfold resolveCredit in Hc.
      destruct (resolved w); [reflexivity|lia]. }
    destruct (promise w) eqn:P; (split; [split|]); simpl; rewrite ?R; auto;
      try congruence;
      try (unfold resolveCredit in *; simpl; rewrite R in *; lia);
      try (unfold budgetLeft in *; simpl; rewrite R in *; lia);
      try (intros; eexists; reflexivity).
    all: intros _; apply Hp; congruence.
Qed.

(** *** Once settled, a promise stays as it is *)

Lemma settled_resolve now w :
  promise w <> Pending -> SameSettlement w (resolve now w).
Proof.
  unfold resolve, SameSettlement.
  destruct (promise w) eqn:E; [congruence| |]; split; simpl; congruence.
Qed.

Lemma settled_reject now e w :
  promise w <> Pending -> SameSettlement w (reject now e w).
Proof.
  unfold reject, SameSettlement.
  destruct (promise w) eqn:E; [congruence| |]; split; simpl; congruence.
Qed.

Lemma settled_onLoadedData isMobile now w :
  promise w <> Pending -> SameSettlement w (onLoadedData isMobile now w).
Proof.
  intros H. unfold onLoadedData.
  destruct (resolved w); [split; reflexivity|].
  rewrite removeAllListeners_eq.
  destruct isMobile; [split; reflexivity|].
  apply (settled_resolve now (setListeners [] (setResolved true w))). exact H.
Qed.

Lemma settled_onError now w :
  promise w <> Pending -> SameSettlement w (onError now w).
Proof.
  intros H. unfold onError.
  destruct (resolved w); [split; reflexivity|].
  rewrite removeAllListeners_eq.
  apply (settled_reject now _ (setListeners [] (setResolved true w))). exact H.
Qed.

#[local] Hint Resolve settled_onLoadedData settled_onError : wait.

Lemma settled_dispatch isMobile now s w :
  promise w <> Pending -> SameSettlement w (dispatch isMobile now s w).
Proof.
  intros H. unfold dispatch, onCanPlay.
  case_decide; [|split; reflexivity].
  destruct s; [| destruct (resolved w); [split; reflexivity|] |];
    auto with wait.
Qed.

Lemma settled_fireEntry isMobile now rs e w :
  promise w <> Pending -> SameSettlement w (fireEntry isMobile now rs e w).
Proof.
  intros H. unfold fireEntry.
  set (w1 := setTimers (dequeue e (timers w)) w).
  assert (H1 : promise w1 <> Pending) by exact H.
  change (SameSettlement w1 (runCallback isMobile now rs (fst e) w1)).
  destruct (fst e); simpl.
  - unfold onFallbackTimeout.
    destruct (_ && _); [apply settled_onLoadedData; exact H1|split; reflexivity].
  - unfold onUltimateTimeout.
    destruct (negb _); [apply settled_reject; exact H1|split; reflexivity].
  - apply settled_resolve; exact H1.
Qed.

Lemma settled_exec isMobile k w :
  promise w <> Pending -> SameSettlement w (exec isMobile k w).
Proof.
  intros H. unfold exec. destruct (tickTask k).
  - apply settled_dispatch; exact H.
  - case_decide; [apply settled_fireEntry; exact H|split; reflexivity].
Qed.

Lemma settled_execAll isMobile ks w :
  promise w <> Pending -> SameSettlement w (execAll isMobile ks w).
Proof.
  revert w. induction ks as [|k ks IH]; intros w H; [split; reflexivity|].
  simpl. destruct (settled_exec isMobile k w H) as [Hp Hs].
  destruct (IH (exec isMobile k w)) as [Hp' Hs']; [congruence|].
  split; congruence.
Qed.

Lemma shape_exec isMobile k w : Shape w -> Shape (exec isMobile k w).
Proof.
  intros HS. unfold exec. destruct (tickTask k).
  - apply shape_dispatch; exact HS.
  - case_decide; [eapply shape_fireEntry; eassumption|exact HS].
Qed.

Lemma shape_execAll isMobile ks w : Shape w -> Shape (execAll isMobile ks w).
Proof.
  revert w. induction ks as [|k ks IH]; intros w HS; [exact HS|].
  simpl. apply IH, shape_exec, HS.
Qed.

Lemma dispatch_resolved isMobile now s w :
  resolved w = true -> dispatch isMobile now s w = w.
Proof.
  intros R. unfold dispatch, onCanPlay, onLoadedData, onError.
  rewrite R. case_decide; [destruct s|]; reflexivity.
Qed.

(** *** Timing *)

Lemma bound_fallback isMobile :
  (fallbackMs isMobile + stabilizeMs <= settleBound isMobile)%N
  /\ (fallbackMs isMobile <= ultimateMs isMobile)%N
  /\ (ultimateMs isMobile <= settleBound isMobile)%N.
Proof.
  destruct isMobile; unfold settleBound, fallbackMs, ultimateMs, stabilizeMs; lia.
Qed.

(** Take a membership in an explicit list apart. *)
Ltac members :=
  repeat match goal with
    | H : _ ∈ _ :: _ |- _ => apply elem_of_cons in H as [H|H]
    | H : _ ∈ [] |- _ => inversion H
    | H : (_, _) = (_, _) |- _ => inversion H; clear H
    end.

Lemma timed_executor isMobile : Timed isMobile (executor isMobile 0).
Proof.
  split; simpl; try discriminate.
  all: intros; members; try congruence; apply N.add_0_l.
Qed.

Lemma timed_setTimers isMobile l w :
  Timed isMobile w -> (forall e, e ∈ l -> e ∈ timers w) ->
  Timed isMobile (setTimers l w).
Proof.
  intros [Hf Hu Hs Ht] Hsub. split; simpl; auto.
Qed.

Lemma timed_onLoadedData isMobile now w :
  Timed isMobile w ->
  (promise w = Pending -> resolved w = false -> (now <= ultimateMs isMobile)%N) ->
  Timed isMobile (onLoadedData isMobile now w).
Proof.
  intros HT Hnow. unfold onLoadedData.
  destruct (resolved w) eqn:R; [exact HT|].
  destruct HT as [Hf Hu Hs Ht].
  rewrite removeAllListeners_eq.
  destruct isMobile.
  - split; simpl; auto.
    + intros d H. apply elem_of_app in H as [H|H]; [auto|].
      apply elem_of_cons in H as [H|H]; [congruence|inversion H].
    + intros d H. apply elem_of_app in H as [H|H]; [auto|].
      apply elem_of_cons in H as [H|H]; [congruence|inversion H].
    + intros P d H. apply elem_of_app in H as [H|H]; [auto|].
      apply elem_of_cons in H as [H|H]; [|inversion H].
      inversion H; subst. specialize (Hnow P eq_refl).
      unfold settleBound. apply N.add_le_mono_r. exact Hnow.
  - unfold resolve; simpl.
    destruct (promise w) eqn:P; split; simpl; auto; try congruence.
    intros t Heq. inversion Heq; subst.
    specialize (Hnow eq_refl eq_refl).
    pose proof (bound_fallback false) as (_ & _ & Hb). lia.
Qed.

Lemma timed_onError isMobile now w :
  Timed isMobile w ->
  (promise w = Pending -> resolved w = false -> (now <= ultimateMs isMobile)%N) ->
  Timed isMobile (onError now w).
Proof.
  intros HT Hnow. unfold onError.
  destruct (resolved w) eqn:R; [exact HT|].
  destruct HT as [Hf Hu Hs Ht].
  rewrite removeAllListeners_eq.
  unfold reject; simpl.
  destruct (promise w) eqn:P; split; simpl; auto; try congruence.
  intros t Heq. inversion Heq; subst.
  specialize (Hnow eq_refl eq_refl).
  pose proof (bound_fallback isMobile) as (_ & _ & Hb). lia.
Qed.

#[local] Hint Resolve timed_onLoadedData timed_onError : wait.

Lemma timed_dispatch isMobile now s w :
  Timed isMobile w ->
  (promise w = Pending -> resolved w = false -> (now <= ultimateMs isMobile)%N) ->
  Timed isMobile (dispatch isMobile now s w).
Proof.
  intros HT Hnow. unfold dispatch, onCanPlay.
  case_decide; [|exact HT].
  destruct s; [| destruct (resolved w) |]; auto with wait.
Qed.

Lemma timed_fireEntry isMobile rs e w :
  Timed isMobile w -> e ∈ timers w ->
  Timed isMobile (fireEntry isMobile (snd e) rs e w).
Proof.
  intros HT Hin. unfold fireEntry.
  assert (HT1 : Timed isMobile (setTimers (dequeue e (timers w)) w)).
  { apply timed_setTimers; [exact HT|]. intros x. apply dequeue_subset. }
  destruct HT as [Hf Hu Hs Ht].
  destruct e as [t due]; simpl. destruct t; simpl.
  - unfold onFallbackTimeout.
    match goal with |- context [if ?c then _ else _] => destruct c end;
      [|exact HT1].
    apply timed_onLoadedData; [exact HT1|]. intros _ _.
    rewrite (Hf due Hin). apply bound_fallback.
  - unfold onUltimateTimeout.
    match goal with |- context [if ?c then _ else _] => destruct c end;
      [|exact HT1].
    destruct HT1 as [Hf1 Hu1 Hs1 Ht1].
    unfold reject; simpl.
    destruct (promise w) eqn:P; split; simpl; auto; try congruence.
    intros t Heq. inversion Heq; subst.
    rewrite (Hu t Hin). apply bound_fallback.
  - destruct HT1 as [Hf1 Hu1 Hs1 Ht1].
    unfold resolve; simpl.
    destruct (promise w) eqn:P; split; simpl; auto; try congruence.
    intros t Heq. inversion Heq; subst. apply Hs; auto.
Qed.

(** *** The timed run lets every timer expire *)

Lemma fireDue_inv fuel isMobile tl limit : forall w,
  Shape w -> Timed isMobile w ->
  Shape (fireDue fuel isMobile tl limit w)
  /\ Timed isMobile (fireDue fuel isMobile tl limit w)
  /\ (budgetLeft w <= fuel -> Drained tl limit (fireDue fuel isMobile tl limit w)).
Proof.
  induction fuel as [|fuel IH]; intros w HS HT; simpl.
  - split; [|split]; auto. intros Hb e He.
    unfold budgetLeft in Hb. destruct (timers w); [inversion He|simpl in Hb; lia].
  - destruct (earliest (timers w)) as [e|] eqn:E.
    + pose proof (earliest_elem _ _ E) as Hin.
      destruct (dueBefore tl limit (snd e)) eqn:D.
      * destruct (shape_fireEntry isMobile (snd e) (readyStateAt tl (snd e)) e w HS Hin)
          as [HS' Hlt].
        pose proof (timed_fireEntry isMobile (readyStateAt tl (snd e)) e w HT Hin) as HT'.
        destruct (IH _ HS' HT') as (H1 & H2 & H3).
        split; [|split]; auto. intros Hb. apply H3. lia.
      * split; [|split]; auto. intros _ x Hx.
        eapply dueBefore_mono; [|exact D].
        eapply earliest_min; eassumption.
    + split; [|split]; auto. intros _ x Hx.
      rewrite (earliest_none _ E) in Hx. inversion Hx.
Qed.

Lemma drained_all tl w : Drained tl None w -> timers w = [].
Proof.
  unfold Drained. destruct (timers w) as [|e l]; [reflexivity|].
  intros H. specialize (H e). simpl in H.
  discriminate H. apply elem_of_cons. left. reflexivity.
Qed.

Lemma drained_not_late isMobile tl t w :
  Shape w -> Timed isMobile w -> Drained tl (Some t) w ->
  promise w = Pending -> resolved w = false -> (t <= ultimateMs isMobile)%N.
Proof.
  intros HS HT HD P R.
  destruct (shape_ultimate w HS P R) as [d Hd].
  pose proof (timed_ultimate isMobile w HT d Hd) as ->.
  specialize (HD _ Hd). simpl in HD.
  destruct (timersFirst tl).
  - apply N.leb_gt in HD. lia.
  - apply N.ltb_ge in HD. exact HD.
Qed.

Lemma runEvents_inv isMobile tl evs : forall now w,
  Shape w -> Timed isMobile w ->
  Shape (runEvents isMobile tl now evs w)
  /\ Timed isMobile (runEvents isMobile tl now evs w)
  /\ timers (runEvents isMobile tl now evs w) = [].
Proof.
  induction evs as [|[d s] evs IH]; intros now w HS HT; cbn [runEvents].
  - destruct (fireDue_inv 3 isMobile tl None w HS HT) as (H1 & H2 & H3).
    split; [|split]; auto. eapply drained_all. apply H3. apply shape_budget, HS.
  - destruct (fireDue_inv 3 isMobile tl (Some (now + d)%N) w HS HT) as (H1 & H2 & H3).
    apply IH.
    + apply shape_dispatch, H1.
    + apply timed_dispatch; [exact H2|].
      eapply drained_not_late; eauto. apply H3, shape_budget, HS.
Qed.

Lemma runWait_settles isMobile tl :
  promise (runWait isMobile tl) <> Pending
  /\ exists t, settledAt (runWait isMobile tl) = Some t
               /\ (t <= settleBound isMobile)%N.
Proof.
  unfold runWait.
  destruct (runEvents_inv isMobile tl (events tl) 0%N (executor isMobile 0%N)
              (shape_executor isMobile 0%N) (timed_executor isMobile))
    as (HS & HT & Hnil).
  assert (P : promise (runEvents isMobile tl 0 (events tl) (executor isMobile 0)) <> Pending).
  { intros P.
    destruct (resolved (runEvents isMobile tl 0 (events tl) (executor isMobile 0))) eqn:R.
    - destruct (shape_stabilize _ HS P R) as [d Hd]. rewrite Hnil in Hd. inversion Hd.
    - destruct (shape_ultimate _ HS P R) as [d Hd]. rewrite Hnil in Hd. inversion Hd. }
  split; [exact P|].
  destruct (shape_settled _ HS P) as [t Ht].
  exists t. split; [exact Ht|]. eapply timed_settled; eauto.
Qed.

(** The timed run is one of the interleavings. *)
Lemma fireDue_interleaving fuel isMobile tl limit : forall w,
  exists ks, fireDue fuel isMobile tl limit w = execAll isMobile ks w.
Proof.
  induction fuel as [|fuel IH]; intros w; simpl.
  - exists []. reflexivity.
  - destruct (earliest (timers w)) as [e|] eqn:E; [|exists []; reflexivity].
    destruct (dueBefore tl limit (snd e)); [|exists []; reflexivity].
    destruct (IH (fireEntry isMobile (snd e) (readyStateAt tl (snd e)) e w)) as [ks Hks].
    exists (mkTick (snd e) (readyStateAt tl (snd e)) (Expire e) :: ks).
    simpl. unfold exec at 1. simpl.
    rewrite decide_True by (eapply earliest_elem; eauto). exact Hks.
Qed.

Lemma execAll_app isMobile ks1 ks2 w :
  execAll isMobile (ks1 ++ ks2) w = execAll isMobile ks2 (execAll isMobile ks1 w).
Proof. unfold execAll. apply fold_left_app. Qed.

Lemma runEvents_interleaving isMobile tl evs : forall now w,
  exists ks, runEvents isMobile tl now evs w = execAll isMobile ks w.
Proof.
  induction evs as [|[d s] evs IH]; intros now w; cbn [runEvents].
  - apply fireDue_interleaving.
  - destruct (fireDue_interleaving 3 isMobile tl (Some (now + d)%N) w) as [ks1 H1].
    destruct (IH (now + d)%N
                (dispatch isMobile (now + d) s (fireDue 3 isMobile tl (Some (now + d)%N) w)))
      as [ks2 H2].
    exists (ks1 ++ mkTick (now + d) 0 (Dispatch s) :: ks2).
    rewrite execAll_app. simpl. rewrite <- H1. exact H2.
Qed.

(** *** An element that stays silent *)

Lemma settled_runEvents isMobile tl evs now w :
  promise w <> Pending ->
  SameSettlement w (runEvents isMobile tl now evs w).
Proof.
  intros H. destruct (runEvents_interleaving isMobile tl evs now w) as [ks ->].
  apply settled_execAll, H.
Qed.

Lemma dueBefore_earlier tl limit d1 d2 :
  (d1 <= d2)%N -> dueBefore tl limit d2 = true -> dueBefore tl limit d1 = true.
Proof.
  intros Hle H. destruct (dueBefore tl limit d1) eqn:D; [reflexivity|].
  rewrite (dueBefore_mono tl limit d1 d2 Hle D) in H. discriminate.
Qed.

Lemma fireDue_step fuel isMobile tl limit w e :
  earliest (timers w) = Some e ->
  dueBefore tl limit (snd e) = true ->
  fireDue (S fuel) isMobile tl limit w
  = fireDue fuel isMobile tl limit
      (fireEntry isMobile (snd e) (readyStateAt tl (snd e)) e w).
Proof. intros E D. simpl. rewrite E, D. reflexivity. Qed.

Lemma fireDue_stop fuel isMobile tl limit w e :
  earliest (timers w) = Some e ->
  dueBefore tl limit (snd e) = false ->
  fireDue fuel isMobile tl limit w = w.
Proof. intros E D. destruct fuel; simpl; [reflexivity|]. rewrite E, D. reflexivity. Qed.

Lemma fireDue_idle fuel isMobile tl limit w :
  timers w = [] -> fireDue fuel isMobile tl limit w = w.
Proof. intros E. destruct fuel; simpl; [reflexivity|]. rewrite E. reflexivity. Qed.

(** Both timeouts run with nothing to report: the ultimate one rejects. *)
Lemma fireDue_quiet isMobile tl limit :
  dueBefore tl limit (ultimateMs isMobile) = true ->
  readyStateAt tl (fallbackMs isMobile) < 2 ->
  fireDue 3 isMobile tl limit (executor isMobile 0)
  = mkWait false [LoadedData; CanPlay; ErrorEvent] []
      (Rejected (newError (ultimateMessage isMobile)))
      (Some (ultimateMs isMobile)) 0 1.
Proof.
  intros HU Hrs.
  assert (HF : dueBefore tl limit (fallbackMs isMobile) = true).
  { eapply dueBefore_earlier; [|exact HU]. apply bound_fallback. }
  apply Nat.leb_gt in Hrs.
  rewrite (fireDue_step _ _ _ _ _ (FallbackTimer, fallbackMs isMobile));
    [| destruct isMobile; reflexivity | exact HF].
  unfold fireEntry at 1. cbn [fst snd runCallback]. unfold onFallbackTimeout.
  rewrite Hrs, andb_false_r.
  rewrite (fireDue_step _ _ _ _ _ (UltimateTimer, ultimateMs isMobile));
    [| destruct isMobile; reflexivity | exact HU].
  rewrite fireDue_idle; destruct isMobile; reflexivity.
Qed.

Lemma runWait_quiet isMobile tl :
  quietUntil (ultimateMs isMobile) tl ->
  readyStateAt tl (fallbackMs isMobile) < 2 ->
  promise (runWait isMobile tl) = Rejected (newError (ultimateMessage isMobile))
  /\ settledAt (runWait isMobile tl) = Some (ultimateMs isMobile).
Proof.
  unfold quietUntil, runWait. intros Hq Hrs.
  destruct (events tl) as [|[d s] evs]; cbn [runEvents].
  - rewrite fireDue_quiet by (auto; reflexivity). split; reflexivity.
  - rewrite N.add_0_l.
    rewrite fireDue_quiet; [| |exact Hrs].
    + set (w0 := mkWait false [LoadedData; CanPlay; ErrorEvent] []
                   (Rejected (newError (ultimateMessage isMobile)))
                   (Some (ultimateMs isMobile)) 0 1).
      assert (P0 : promise w0 <> Pending) by discriminate.
      destruct (settled_dispatch isMobile d s w0 P0) as [Hp1 Hs1].
      destruct (settled_runEvents isMobile tl evs d (dispatch isMobile d s w0))
        as [Hp2 Hs2]; [rewrite Hp1; exact P0|].
      rewrite Hp2, Hs2, Hp1, Hs1. split; reflexivity.
    + simpl. destruct (timersFirst tl); [apply N.leb_le|apply N.ltb_lt]; lia.
Qed.

(** *** The shorter fallback *)

Lemma fulfilling_fireEntry isMobile rs d e w :
  e ∈ timers w -> Fulfilling d w ->
  Fulfilling d (fireEntry isMobile (snd e) rs e w).
Proof.
  intros Hin [[P S]|(R & P & Hd)].
  - left. destruct (settled_fireEntry isMobile (snd e) rs e w) as [Hp Hs];
      [congruence|]. split; congruence.
  - unfold fireEntry. destruct e as [t due]; simpl. destruct t; simpl.
    + unfold onFallbackTimeout. simpl. rewrite R. simpl.
      right. simpl. repeat split; auto. intros d' H. apply Hd.
      eapply dequeue_subset; eauto.
    + unfold onUltimateTimeout. simpl. rewrite R. simpl.
      right. simpl. repeat split; auto. intros d' H. apply Hd.
      eapply dequeue_subset; eauto.
    + left. unfold resolve. simpl. rewrite P. simpl.
      rewrite (Hd due Hin). split; reflexivity.
Qed.

Lemma fulfilling_dispatch isMobile now s d w :
  Fulfilling d w -> Fulfilling d (dispatch isMobile now s w).
Proof.
  intros [[P S]|(R & P & Hd)].
  - left. destruct (settled_dispatch isMobile now s w) as [Hp Hs];
      [congruence|]. split; congruence.
  - rewrite dispatch_resolved by exact R. right. auto.
Qed.

Lemma fulfilling_fireDue fuel isMobile tl limit d : forall w,
  Fulfilling d w -> Fulfilling d (fireDue fuel isMobile tl limit w).
Proof.
  induction fuel as [|fuel IH]; intros w H; simpl; [exact H|].
  destruct (earliest (timers w)) as [e|] eqn:E; [|exact H].
  destruct (dueBefore tl limit (snd e)); [|exact H].
  apply IH, fulfilling_fireEntry; [eapply earliest_elem; eauto|exact H].
Qed.

Lemma fulfilling_drained d w :
  Shape w -> timers w = [] -> Fulfilling d w ->
  promise w = Fulfilled /\ settledAt w = Some d.
Proof.
  intros HS Hnil [H|(R & P & _)]; [exact H|].
  destruct (shape_stabilize w HS P R) as [d' Hd'].
  rewrite Hnil in Hd'. inversion Hd'.
Qed.

Lemma timed_dispatch_fulfilling isMobile now s d w :
  Timed isMobile w -> Fulfilling d w ->
  Timed isMobile (dispatch isMobile now s w).
Proof.
  intros HT HF. apply timed_dispatch; [exact HT|].
  intros P R. destruct HF as [[P' _]|(R' & _)]; congruence.
Qed.

Lemma fulfilling_runEvents isMobile tl d evs : forall now w,
  Shape w -> Timed isMobile w -> Fulfilling d w ->
  promise (runEvents isMobile tl now evs w) = Fulfilled
  /\ settledAt (runEvents isMobile tl now evs w) = Some d.
Proof.
  induction evs as [|[dt s] evs IH]; intros now w HS HT HF; cbn [runEvents].
  - destruct (fireDue_inv 3 isMobile tl None w HS HT) as (H1 & H2 & H3).
    apply fulfilling_drained; [exact H1| |apply fulfilling_fireDue, HF].
    eapply drained_all, H3, shape_budget, HS.
  - destruct (fireDue_inv 3 isMobile tl (Some (now + dt)%N) w HS HT) as (H1 & H2 & H3).
    pose proof (fulfilling_fireDue 3 isMobile tl (Some (now + dt)%N) d w HF) as H4.
    apply IH.
    + apply shape_dispatch, H1.
    + eapply timed_dispatch_fulfilling; eauto.
    + apply fulfilling_dispatch, H4.
Qed.

Lemma fallback_fulfilling isMobile rs :
  2 <= rs ->
  Fulfilling (fallbackSettles isMobile)
    (fireEntry isMobile (fallbackMs isMobile) rs
       (FallbackTimer, fallbackMs isMobile) (executor isMobile 0)).
Proof.
  intros Hrs. apply Nat.leb_le in Hrs.
  unfold fireEntry. cbn [fst snd runCallback]. unfold onFallbackTimeout.
  rewrite Hrs. destruct isMobile.
  - right. repeat split.
    intros d' H. vm_compute in H.
    repeat (apply elem_of_cons in H as [H|H]; [try discriminate; inversion H; reflexivity|]).
    inversion H.
  - left. split; reflexivity.
Qed.

Lemma runWait_fallback isMobile tl :
  quietUntil (fallbackMs isMobile) tl ->
  2 <= readyStateAt tl (fallbackMs isMobile) ->
  promise (runWait isMobile tl) = Fulfilled
  /\ settledAt (runWait isMobile tl) = Some (fallbackSettles isMobile).
Proof.
  unfold quietUntil, runWait. intros Hq Hrs.
  pose proof (fallback_fulfilling isMobile _ Hrs) as HF.
  assert (Hin : (FallbackTimer, fallbackMs isMobile) ∈ timers (executor isMobile 0)).
  { destruct isMobile; apply elem_of_cons; left; reflexivity. }
  destruct (shape_fireEntry isMobile (fallbackMs isMobile)
              (readyStateAt tl (fallbackMs isMobile)) _ _
              (shape_executor isMobile 0%N) Hin) as [HS1 Hb1].
  pose proof (timed_fireEntry isMobile (readyStateAt tl (fallbackMs isMobile)) _ _
                (timed_executor isMobile) Hin) as HT1.
  cbn [snd] in HT1.
  assert (Hb : budgetLeft (fireEntry isMobile (fallbackMs isMobile)
                 (readyStateAt tl (fallbackMs isMobile))
                 (FallbackTimer, fallbackMs isMobile) (executor isMobile 0)) <= 2).
  { assert (budgetLeft (executor isMobile 0) = 3) by reflexivity. lia. }
  destruct (events tl) as [|[d s] evs]; cbn [runEvents].
  - rewrite (fireDue_step _ _ _ _ _ (FallbackTimer, fallbackMs isMobile));
      [| destruct isMobile; reflexivity | reflexivity].
    cbn [snd].
    destruct (fireDue_inv 2 isMobile tl None _ HS1 HT1) as (H1 & H2 & H3).
    apply fulfilling_drained; [exact H1| |apply fulfilling_fireDue, HF].
    eapply drained_all, H3, Hb.
  - rewrite N.add_0_l.
    rewrite (fireDue_step _ _ _ _ _ (FallbackTimer, fallbackMs isMobile));
      [| destruct isMobile; reflexivity
       | simpl; destruct (timersFirst tl); [apply N.leb_le|apply N.ltb_lt]; lia].
    cbn [snd].
    destruct (fireDue_inv 2 isMobile tl (Some d) _ HS1 HT1) as (H1 & H2 & H3).
    pose proof (fulfilling_fireDue 2 isMobile tl (Some d) _ _ HF) as H4.
    apply fulfilling_runEvents.
    + apply shape_dispatch, H1.
    + eapply timed_dispatch_fulfilling; eauto.
    + apply fulfilling_dispatch, H4.
Qed.

(** ** The loop over the constraint candidates *)

Lemma ladder_cons b log options lastError c o attempts out :
  keepsTrying o = true ->
  o = getUserMedia b log c ->
  Ladder b (log ++ [(c, o)]) options
    (match o with GumRejected e => Some e | GumResolved _ => lastError end)
    attempts out ->
  Ladder b log (c :: options) lastError ((c, o) :: attempts) out.
Proof.
  intros Hk Ho [H1 H2 H3 H4]. split.
  - simpl. rewrite H1. reflexivity.
  - intros [|i] c' o' Hl; simpl in Hl.
    + inversion Hl; subst. rewrite app_nil_r. reflexivity.
    + rewrite (H2 i c' o' Hl). simpl. rewrite <- app_assoc. reflexivity.
  - intros [|i] c' o' Hl Hlen; simpl in Hl, Hlen.
    + inversion Hl; subst. exact Hk.
    + apply (H3 i c' o' Hl). lia.
  - destruct out as [[[s|] le]|t|]; simpl in *.
    + destruct H4 as [[c' Hlast] Hle]. split; [|exact Hle].
      exists c'. destruct attempts; [discriminate|exact Hlast].
    + destruct H4 as (Hlen & Hall & Hle). repeat split; auto.
      intros a Ha. apply elem_of_cons in Ha as [->|Ha]; auto.
    + destruct H4 as (c' & e & Hlast & Hd & Ht). exists c', e.
      repeat split; auto. destruct attempts; [discriminate|exact Hlast].
    + exact H4.
Qed.

Lemma tryConstraintOptions_cons b c rest lastError st :
  tryConstraintOptions b (c :: rest) lastError st
  = let st1 := setGumLog
                (gumLog st ++ [(c, getUserMedia b (gumLog st) c)]) st in
    match getUserMedia b (gumLog st) c with
    | GumResolved (Some stream) => (Return (Some stream, lastError), st1)
    | GumResolved None => tryConstraintOptions b rest lastError st1
    | GumRejected e =>
        if String.eqb (name e) "NotAllowedError"
        then (Throw (ThrownError e), st1)
        else tryConstraintOptions b rest (Some e) st1
    end.
Proof.
  cbn [tryConstraintOptions]. unfold bind, callGetUserMedia.
  destruct (getUserMedia b (gumLog st) c) as [[s|]|e]; try reflexivity.
  destruct (String.eqb (name e) "NotAllowedError"); reflexivity.
Qed.

Lemma tryConstraintOptions_ladder b options : forall lastError st,
  exists attempts,
    snd (tryConstraintOptions b options lastError st)
    = setGumLog (gumLog st ++ attempts) st
    /\ Ladder b (gumLog st) options lastError attempts
         (fst (tryConstraintOptions b options lastError st)).
Proof.
  induction options as [|c rest IH]; intros lastError st.
  - exists []. simpl. split.
    + rewrite app_nil_r. destruct st; reflexivity.
    + split; simpl; auto; try (intros; discriminate).
      repeat split; auto. intros a Ha. inversion Ha.
  - rewrite tryConstraintOptions_cons. cbv zeta.
    set (o := getUserMedia b (gumLog st) c).
    set (st1 := setGumLog (gumLog st ++ [(c, o)]) st).
    destruct o as [[s|]|e] eqn:Eo.
    + (* a live stream: break *)
      exists [(c, GumResolved (Some s))]. split; [reflexivity|].
      split; simpl; auto.
      * intros [|i] c' o' Hl; simpl in Hl; [|discriminate].
        inversion Hl; subst. rewrite app_nil_r. symmetry. exact Eo.
      * intros [|i] c' o' Hl Hlen; simpl in Hlen; lia.
      * split; [eexists; reflexivity|reflexivity].
    + (* resolved without a stream: next candidate *)
      destruct (IH lastError st1) as (attempts & Hst & HL).
      exists ((c, GumResolved None) :: attempts). split.
      * rewrite Hst. unfold st1. simpl. rewrite <- app_assoc. reflexivity.
      * apply ladder_cons; [reflexivity|symmetry; exact Eo|exact HL].
    + destruct (String.eqb (name e) "NotAllowedError") eqn:Hn.
      * (* permission denied: rethrow *)
        exists [(c, GumRejected e)]. split; [reflexivity|].
        split; simpl; auto.
        -- intros [|i] c' o' Hl; simpl in Hl; [|discriminate].
           inversion Hl; subst. rewrite app_nil_r. symmetry. exact Eo.
        -- intros [|i] c' o' Hl Hlen; simpl in Hlen; lia.
        -- exists c, e. repeat split; auto.
      * destruct (IH (Some e) st1) as (attempts & Hst & HL).
        exists ((c, GumRejected e) :: attempts). split.
        -- rewrite Hst. unfold st1. simpl. rewrite <- app_assoc. reflexivity.
        -- apply ladder_cons; [|symmetry; exact Eo|exact HL].
           unfold keepsTrying. simpl. rewrite Hn. reflexivity.
Qed.

(** ** startCamera: the negotiator *)

Lemma startCatch_run t st :
  tryFinally (startCatch t) (setIsLoading false) st
  = (Return false, failed (userMessage t) st).
Proof.
  unfold tryFinally, startCatch, bind, modify, ret, onErrorProp, userMessage.
  destruct t as [e|]; [|reflexivity].
  destruct (String.eqb (name e) "NotAllowedError"); [reflexivity|].
  destruct (String.eqb (name e) "NotFoundError"); [reflexivity|].
  destruct (String.eqb (name e) "NotReadableError"); reflexivity.
Qed.

Lemma startCamera_unavailable b st c :
  checkCameraAccess b = ProbeReturns c ->
  Access.available c = false ->
  startCamera b st
  = (Return false,
     failed (optOrElse (Access.error c) "Camera not available")
       (setError None (setIsLoading true st))).
Proof.
  intros Hp Ha.
  unfold startCamera, tryFinally, tryCatch, startBody, bind, modify,
    awaitCheckCameraAccess, onErrorProp, ret.
  rewrite Hp. unfold ret. rewrite Ha. reflexivity.
Qed.

Lemma startCamera_probeThrows b st t :
  checkCameraAccess b = ProbeThrows t ->
  startCamera b st
  = (Return false, failed (userMessage t) (setError None (setIsLoading true st))).
Proof.
  intros Hp.
  unfold startCamera. rewrite <- startCatch_run.
  unfold tryFinally, tryCatch, startBody, bind, modify, awaitCheckCameraAccess.
  rewrite Hp. reflexivity.
Qed.

Lemma grantedRun_gumLog b st attempts r :
  GrantedRun b st attempts r -> gumLog (snd r) = gumLog st ++ attempts.
Proof. intros []; reflexivity. Qed.

Lemma grantedRun_returns b st attempts r :
  GrantedRun b st attempts r -> exists v, fst r = Return v.
Proof. intros []; eexists; reflexivity. Qed.

Lemma ladder_success_is_last b log options le attempts out i c o :
  Ladder b log options le attempts out ->
  attempts !! i = Some (c, o) -> keepsTrying o = false ->
  S i = length attempts.
Proof.
  intros HL Hi Hk.
  pose proof (lookup_lt_Some _ _ _ Hi) as Hlt.
  destruct (decide (S i < length attempts)) as [Hlt'|Hge]; [|lia].
  rewrite (ladder_continue _ _ _ _ _ _ HL i c o Hi Hlt') in Hk. discriminate.
Qed.

Lemma ladder_stops b log options le attempts out :
  Ladder b log options le attempts out ->
  length attempts < length options ->
  exists c o, last attempts = Some (c, o) /\ keepsTrying o = false.
Proof.
  intros HL Hlen. pose proof (ladder_result _ _ _ _ _ _ HL) as Hres.
  destruct out as [[[s|] l]|t|]; cbn in Hres.
  - destruct Hres as [[c Hlast] _]. exists c, (GumResolved (Some s)). auto.
  - destruct Hres as (Heq & _). lia.
  - destruct Hres as (c & e & Hlast & Hd & _). exists c, (GumRejected e).
    split; [exact Hlast|]. unfold keepsTrying. cbn. rewrite Hd. reflexivity.
  - contradiction.
Qed.

Lemma ladder_nonempty b log options le attempts out :
  Ladder b log options le attempts out ->
  options <> [] -> attempts <> [].
Proof.
  intros HL Hne ->. pose proof (ladder_result _ _ _ _ _ _ HL) as Hres.
  destruct out as [[[s|] l]|t|]; cbn in Hres.
  - destruct Hres as [[c Hlast] _]. discriminate.
  - destruct Hres as (Heq & _). destruct options; [congruence|discriminate].
  - destruct Hres as (c & e & Hlast & _). discriminate.
  - contradiction.
Qed.

Lemma lastRejection_last init attempts c e :
  last attempts = Some (c, GumRejected e) ->
  lastRejection init attempts = Some e.
Proof.
  intros H. apply last_Some in H as [l' ->].
  unfold lastRejection. rewrite fold_left_app. reflexivity.
Qed.

Lemma last_lookup_length {A} (l : list A) i x :
  l !! i = Some x -> S i = length l -> last l = Some x.
Proof.
  intros Hi Hlen. rewrite last_lookup. rewrite <- Hlen. simpl. exact Hi.
Qed.

Lemma isDenied_name e :
  isDenied (GumRejected e) = true <-> name e = "NotAllowedError".
Proof. simpl. apply String.eqb_eq. Qed.

Lemma userMessage_denied e :
  name e = "NotAllowedError" -> userMessage (ThrownError e) = deniedMessage.
Proof. intros H. unfold userMessage. rewrite H. reflexivity. Qed.

Lemma userMessage_other e :
  name e <> "NotAllowedError" ->
  userMessage (ThrownError e)
  = if String.eqb (name e) "NotFoundError" then notFoundMessage
    else if String.eqb (name e) "NotReadableError" then inUseMessage
    else orElse (message e) genericMessage.
Proof.
  intros H. unfold userMessage.
  apply String.eqb_neq in H. rewrite H. reflexivity.
Qed.

Lemma loop_keeps_permission b options le st :
  hasPermission (snd (tryConstraintOptions b options le st)) = hasPermission st.
Proof.
  destruct (tryConstraintOptions_ladder b options le st) as (attempts & -> & _).
  reflexivity.
Qed.

(** *** Runs in which the permission probe succeeds *)

Section Granted.

Variables (b : Browser) (st : State) (c : Access.Check).

Hypothesis probe_returns : checkCameraAccess b = ProbeReturns c.

Hypothesis probe_available : Access.available c = true.

Lemma startCamera_granted :
  startCamera b st
  = let isMobile := isMobileUA (userAgent b) in
    match tryConstraintOptions b (constraintOptions isMobile) None (probed st) with
    | (Return (Some stream, _), st1) =>
        match videoRef st1 with
        | Some el =>
            match promise (runWait isMobile (timeline b)) with
            | Fulfilled => (Return true, started (bound stream el st1))
            | Rejected reason =>
                (Return false,
                 failed (userMessage (ThrownError reason)) (bound stream el st1))
            | Pending => (Hang, bound stream el st1)
            end
        | None => (Return false, setIsLoading false st1)
        end
    | (Return (None, lastError), st1) =>
        (Return false,
         failed (userMessage
                   (ThrownError
                      (match lastError with
                       | Some e => e
                       | None => newError "Failed to access any camera configuration"
                       end))) st1)
    | (Throw t, st1) => (Return false, failed (userMessage t) st1)
    | (Hang, st1) => (Hang, st1)
    end.
Proof.
  cbv zeta.
  unfold startCamera, startBody, tryFinally, tryCatch, bind, modify, get,
    awaitCheckCameraAccess, awaitReady, onCameraReady, probed.
  rewrite probe_returns. unfold ret at 1. rewrite probe_available. cbn [negb].
  match goal with
  | |- context [tryConstraintOptions ?a ?o ?l ?s] =>
      destruct (tryConstraintOptions a o l s) as [[[[s'|] le]|t|] st1]
  end.
  - destruct (videoRef st1) as [el|]; [|reflexivity].
    cbn [videoRef setVideoRef setStreamRef].
    change (setStreamRef (Some s') (setVideoRef (Some (configureVideo s' el)) st1))
      with (bound s' el st1).
    destruct (promise (runWait (isMobileUA (userAgent b)) (timeline b))) as [| |r];
      [reflexivity|reflexivity|].
    rewrite <- startCatch_run. reflexivity.
  - unfold throw. rewrite <- startCatch_run. reflexivity.
  - rewrite <- startCatch_run. reflexivity.
  - reflexivity.
Qed.

Lemma startCamera_granted_run :
  exists attempts,
    Ladder b (gumLog st) (constraintOptions (isMobileUA (userAgent b))) None
      attempts
      (fst (tryConstraintOptions b
              (constraintOptions (isMobileUA (userAgent b))) None (probed st)))
    /\ GrantedRun b st attempts (startCamera b st).
Proof.
  rewrite startCamera_granted. cbv zeta.
  destruct (tryConstraintOptions_ladder b
              (constraintOptions (isMobileUA (userAgent b))) None (probed st))
    as (attempts & Hst & HL).
  exists attempts. split; [exact HL|].
  destruct (tryConstraintOptions b (constraintOptions (isMobileUA (userAgent b)))
              None (probed st)) as [out st1].
  cbn [fst snd] in *. subst st1.
  change (gumLog (probed st)) with (gumLog st).
  pose proof (ladder_result _ _ _ _ _ _ HL) as Hres.
  destruct out as [[[s|] le]|t|]; cbn in Hres.
  - destruct Hres as [[c' Hlast] _].
    change (videoRef (setGumLog (gumLog st ++ attempts) (probed st)))
      with (videoRef st).
    destruct (videoRef st) as [el|] eqn:Hv.
    + destruct (promise (runWait (isMobileUA (userAgent b)) (timeline b))) eqn:P.
      * exfalso. apply (proj1 (runWait_settles _ _) P).
      * eapply RunStarted; eauto.
      * eapply RunNotReady; eauto.
    + eapply RunUnmounted; eauto.
  - destruct Hres as (Hlen & Hall & ->). apply RunExhausted; auto.
  - destruct Hres as (c' & e & Hlast & Hd & ->). eapply RunDenied; eauto.
  - contradiction.
Qed.

(** C1: in every run of [startCamera] whose permission probe reports the
    camera available, the [getUserMedia] calls made are the candidates of
    [constraintOptions] taken in list order from the first one (the exact
    front-camera request) on; each outcome is what the browser answers at
    that point; no call follows one that yields a stream; and the run stops
    short of the last candidate (the any-video request) only on a stream or
    on a denial. *)
Theorem startCamera_tries_candidates_in_order :
    let options := constraintOptions (isMobileUA (userAgent b)) in
    exists attempts,
      gumLog (snd (startCamera b st)) = gumLog st ++ attempts
      /\ attempts <> []
      /\ map fst attempts = take (length attempts) options
      /\ (forall i c o, attempts !! i = Some (c, o) ->
            o = getUserMedia b (gumLog st ++ take i attempts) c)
      /\ (forall i c o, attempts !! i = Some (c, o) ->
            yieldsStream o = true -> S i = length attempts)
      /\ (forall i c o, attempts !! i = Some (c, o) ->
            S i < length attempts -> yieldsStream o = false)
      /\ (length attempts < length options ->
            exists c o, last attempts = Some (c, o) /\ keepsTrying o = false)
      /\ (exists v, Media.video <$> head options = Some (Media.VideoWith v)
                    /\ Media.facingMode v = Some (Media.FacingExact "user"))
      /\ Media.video <$> last options = Some Media.VideoAny.
Proof.
  intros options.
  destruct startCamera_granted_run as (attempts & HL & HR).
  exists attempts. repeat split.
  - eapply grantedRun_gumLog; eauto.
  - eapply ladder_nonempty; [exact HL|]. discriminate.
  - eapply ladder_order; eauto.
  - eapply ladder_answers; eauto.
  - intros i c' o Hi Hy. eapply ladder_success_is_last; eauto.
    unfold keepsTrying. rewrite Hy. reflexivity.
  - intros i c' o Hi Hlt.
    pose proof (ladder_continue _ _ _ _ _ _ HL i c' o Hi Hlt) as Hk.
    unfold keepsTrying in Hk. destruct (yieldsStream o); [discriminate|reflexivity].
  - eapply ladder_stops; eauto.
  - subst options. destruct (isMobileUA (userAgent b)); eexists; split; reflexivity.
Qed.

(** C2: in every such run, a [NotAllowedError] rejection is the last
    attempt made, and the run returns false with the permission-denied
    message set and passed to [onError]; and when every candidate is
    rejected with some other error, all candidates are tried and the run
    returns false with the message the [catch] block gives the last
    rejection: no camera found, camera in use, or else the error's own
    message (the generic text when that is empty). *)
Theorem startCamera_denial_aborts_else_last_error :
    exists attempts,
      gumLog (snd (startCamera b st)) = gumLog st ++ attempts
      /\ (forall i c e,
            attempts !! i = Some (c, GumRejected e) ->
            name e = "NotAllowedError" ->
            S i = length attempts
            /\ fst (startCamera b st) = Return false
            /\ error (snd (startCamera b st)) = Some deniedMessage
            /\ errorLog (snd (startCamera b st)) = errorLog st ++ [deniedMessage])
      /\ ((forall log c, exists e,
              getUserMedia b log c = GumRejected e
              /\ name e <> "NotAllowedError") ->
          exists c e,
            length attempts
            = length (constraintOptions (isMobileUA (userAgent b)))
            /\ last attempts = Some (c, GumRejected e)
            /\ fst (startCamera b st) = Return false
            /\ error (snd (startCamera b st))
               = Some (if String.eqb (name e) "NotFoundError" then notFoundMessage
                       else if String.eqb (name e) "NotReadableError" then inUseMessage
                       else orElse (message e) genericMessage)
            /\ errorLog (snd (startCamera b st))
               = errorLog st ++ [userMessage (ThrownError e)]).
Proof.
  destruct startCamera_granted_run as (attempts & HL & HR).
  exists attempts. split; [eapply grantedRun_gumLog; eauto|]. split.
  - intros i c' e Hi Hn.
    assert (Hlen : S i = length attempts).
    { eapply ladder_success_is_last; eauto.
      unfold keepsTrying. rewrite (proj2 (isDenied_name e) Hn). reflexivity. }
    split; [exact Hlen|].
    pose proof (last_lookup_length _ _ _ Hi Hlen) as Hlast.
    destruct HR as [s el c0 H0 _ _|s el c0 r H0 _ _|s c0 H0 _|_ Hall|c0 e0 H0 Hd];
      try (rewrite H0 in Hlast; discriminate).
    + specialize (Hall (c', GumRejected e)).
      unfold keepsTrying in Hall. cbn [snd] in Hall.
      rewrite (proj2 (isDenied_name e) Hn) in Hall.
      discriminate Hall. eapply list_elem_of_lookup_2; eauto.
    + rewrite H0 in Hlast. inversion Hlast; subst.
      cbn -[userMessage]. rewrite (userMessage_denied e Hn). auto.
  - intros Hfail.
    assert (Hrej : forall i c0 o, attempts !! i = Some (c0, o) ->
              exists e, o = GumRejected e /\ name e <> "NotAllowedError").
    { intros i c0 o Hi.
      rewrite (ladder_answers _ _ _ _ _ _ HL i c0 o Hi). apply Hfail. }
    assert (Hlast : forall c0 o, last attempts = Some (c0, o) ->
              exists e, o = GumRejected e /\ name e <> "NotAllowedError").
    { intros c0 o H. rewrite last_lookup in H. eapply Hrej; eauto. }
    destruct HR as [s el c0 H0 _ _|s el c0 r H0 _ _|s c0 H0 _|Hlen Hall|c0 e0 H0 Hd].
    1-3: destruct (Hlast _ _ H0) as (e & He & _); discriminate.
    + destruct (last attempts) as [[cl ol]|] eqn:El.
      * destruct (Hlast _ _ eq_refl) as (e & -> & Hne).
        exists cl, e. rewrite (lastRejection_last None attempts cl e El).
        cbn -[userMessage]. rewrite (userMessage_other e Hne).
        repeat split; auto.
      * apply last_None in El. subst attempts.
        destruct (isMobileUA (userAgent b)); discriminate.
    + destruct (Hlast _ _ H0) as (e & He & Hne). inversion He; subst.
      apply isDenied_name in Hd. contradiction.
Qed.

Lemma startBody_granted_throw t st1 :
  startBody b st = (Throw t, st1) ->
  hasPermission st1 = Some true.
Proof.
  unfold startBody, bind, modify, get, awaitCheckCameraAccess, awaitReady,
    onCameraReady.
  rewrite probe_returns. unfold ret at 1. rewrite probe_available. cbn [negb].
  match goal with
  | |- context [tryConstraintOptions ?a ?o ?l ?s] =>
      pose proof (loop_keeps_permission a o l s) as Hperm;
      destruct (tryConstraintOptions a o l s) as [[[[s'|] le]|t'|] st2]
  end; cbn [snd] in Hperm.
  - destruct (videoRef st2) as [el|]; [|discriminate].
    cbn [videoRef setVideoRef setStreamRef].
    destruct (promise (runWait (isMobileUA (userAgent b)) (timeline b)));
      try discriminate.
    intros H. inversion H; subst. exact Hperm.
  - unfold throw. intros H. inversion H; subst. exact Hperm.
  - intros H. inversion H; subst. exact Hperm.
  - discriminate.
Qed.

End Granted.

(** Two candidates find no device, the third yields the stream: three
    attempts, in list order, and none after the stream. *)
Lemma startCamera_tries_candidates_in_order_witness :
  checkCameraAccess thirdCandidateWorks = ProbeReturns (Access.mkCheck true None)
  /\ Access.available (Access.mkCheck true None) = true
  /\ exists attempts,
       gumLog (snd (startCamera thirdCandidateWorks mounted))
       = gumLog mounted ++ attempts
       /\ map fst attempts = take (length attempts) (constraintOptions false)
       /\ length attempts = 3
       /\ isActive (snd (startCamera thirdCandidateWorks mounted)) = true.
Proof.
  split; [reflexivity|]. split; [reflexivity|].
  destruct (startCamera_tries_candidates_in_order thirdCandidateWorks mounted
              (Access.mkCheck true None) eq_refl eq_refl)
    as (attempts & Hlog & _ & Hord & _).
  exists attempts. split; [exact Hlog|]. split; [exact Hord|].
  vm_compute in Hlog. rewrite <- Hlog. split; reflexivity.
Defined.

(** A denial on the second candidate ends the run with the denial message;
    four device-not-found failures end it with the not-found message. *)
Lemma startCamera_denial_aborts_else_last_error_witness :
  (checkCameraAccess deniesSecond = ProbeReturns (Access.mkCheck true None)
   /\ Access.available (Access.mkCheck true None) = true
   /\ length (gumLog (snd (startCamera deniesSecond mounted))) = 2
   /\ fst (startCamera deniesSecond mounted) = Return false
   /\ error (snd (startCamera deniesSecond mounted)) = Some deniedMessage)
  /\ (checkCameraAccess noCamera = ProbeReturns (Access.mkCheck true None)
      /\ length (gumLog (snd (startCamera noCamera mounted))) = 4
      /\ fst (startCamera noCamera mounted) = Return false
      /\ error (snd (startCamera noCamera mounted)) = Some notFoundMessage).
Proof.
  split.
  - split; [reflexivity|]. split; [reflexivity|].
    destruct (startCamera_denial_aborts_else_last_error deniesSecond mounted
                (Access.mkCheck true None) eq_refl eq_refl)
      as (attempts & Hlog & Hdenied & _).
    assert (Hat : attempts !! 1
                  = Some (nth 1 (constraintOptions false)
                            (Media.mkConstraints Media.VideoAny false),
                          GumRejected notAllowed)).
    { vm_compute in Hlog. rewrite <- Hlog. reflexivity. }
    destruct (Hdenied 1 _ notAllowed Hat eq_refl) as (Hlen & Hret & Herr & _).
    rewrite Hlog. cbn [gumLog mounted app]. rewrite <- Hlen. auto.
  - split; [reflexivity|].
    destruct (startCamera_denial_aborts_else_last_error noCamera mounted
                (Access.mkCheck true None) eq_refl eq_refl)
      as (attempts & Hlog & _ & Hall).
    destruct Hall as (c & e & Hlen & Hlast & Hret & Herr & _).
    { intros log c. exists notFound. split; [reflexivity|discriminate]. }
    rewrite Hlog. cbn [gumLog mounted app]. rewrite Hlen.
    split; [reflexivity|]. split; [exact Hret|].
    rewrite Herr. vm_compute in Hlog. rewrite <- Hlog in Hlast.
    inversion Hlast. reflexivity.
Defined.

(** C10: whenever the [try] block of [startCamera] throws, whatever the
    error, the run returns false with [hasPermission] false and the
    handler's message as error; this is so also when the permission probe
    had succeeded, in which case [hasPermission] was true when the handler
    was entered. *)
Theorem startCamera_error_handler_clears_permission :
  forall (b : Browser) (st st1 : State) (t : Thrown),
    startBody b st = (Throw t, st1) ->
    fst (startCamera b st) = Return false
    /\ hasPermission (snd (startCamera b st)) = Some false
    /\ error (snd (startCamera b st)) = Some (userMessage t)
    /\ (forall c, checkCameraAccess b = ProbeReturns c ->
                  Access.available c = true ->
                  hasPermission st1 = Some true).
Proof.
  intros b st st1 t H.
  assert (Hrun : startCamera b st = (Return false, failed (userMessage t) st1)).
  { rewrite <- startCatch_run. unfold startCamera, tryFinally, tryCatch.
    rewrite H. reflexivity. }
  rewrite Hrun. repeat split.
  intros c Hp Ha. eapply startBody_granted_throw; eauto.
Qed.

(** No candidate finds a device: the probe had set the flag, the handler
    clears it. *)
Lemma startCamera_error_handler_clears_permission_witness :
  startBody noCamera mounted
  = (Throw (ThrownError notFound), snd (startBody noCamera mounted))
  /\ hasPermission (snd (startBody noCamera mounted)) = Some true
  /\ hasPermission (snd (startCamera noCamera mounted)) = Some false
  /\ error (snd (startCamera noCamera mounted)) = Some notFoundMessage.
Proof.
  split; [reflexivity|].
  destruct (startCamera_error_handler_clears_permission noCamera mounted
              (snd (startBody noCamera mounted)) (ThrownError notFound) eq_refl)
    as (_ & Hperm & Herr & Hbefore).
  split; [exact (Hbefore (Access.mkCheck true None) eq_refl eq_refl)|].
  split; [exact Hperm|exact Herr].
Defined.

(** ** The canvas and the blank test *)

Lemma canvasAt_put h c m st : canvasAt (setCanvases (<[h := c]> m) st) h = c.
Proof. unfold canvasAt. simpl. rewrite lookup_insert_eq. reflexivity. Qed.

Lemma withCanvas_twice h c c' st :
  withCanvas h c (withCanvas h c' st) = withCanvas h c st.
Proof. unfold withCanvas. simpl. rewrite insert_insert_eq. reflexivity. Qed.

Lemma captureBody_run b h vw vh st :
  captureBody b h vw vh st
  = match drawImage b with
    | Painted frame =>
        let st' := withCanvas h (paintedCanvas vw vh frame) st in
        match getImageDataThrows b with
        | Some e => (Throw e, st')
        | None =>
            if isBlank (imageData (paintedCanvas vw vh frame) 0 0
                          (Nat.min 10 vw) (Nat.min 10 vh))
            then (Return None, st')
            else (Return (Some h), st')
        end
    | DrawThrows e => (Throw e, withCanvas h (clearedCanvas vw vh) st)
    end.
Proof.
  unfold captureBody, setCanvasWidth, setCanvasHeight, clearRect, drawImageOnto,
    getImageData, putCanvas, bind, modify, get, ret, throw.
  cbn [canvases setCanvases].
  repeat rewrite canvasAt_put. cbn [canvasWidth canvasHeight].
  fold (clearedCanvas vw vh).
  destruct (drawImage b) as [frame|e].
  - cbn [canvases setCanvases]. rewrite canvasAt_put.
    fold (paintedCanvas vw vh frame).
    assert (Hst : forall c1 c2 c3 c4,
      setCanvases (<[h:=c4]> (<[h:=c3]> (<[h:=c2]> (<[h:=c1]> (canvases st))))) st
      = withCanvas h c4 st).
    { intros. unfold withCanvas. rewrite !insert_insert_eq. reflexivity. }
    destruct (getImageDataThrows b) as [e|].
    + cbv zeta. f_equal. apply Hst.
    + cbn [canvases setCanvases]. rewrite canvasAt_put. cbv zeta.
      destruct (isBlank _); f_equal; apply Hst.
  - f_equal. unfold withCanvas. rewrite !insert_insert_eq. reflexivity.
Qed.

Lemma everyFrom_pixel i p rest :
  i mod 4 = 0 ->
  everyFrom blankTest i (channels p ++ rest)
  = rgbZero p && everyFrom blankTest (i + 4) rest.
Proof.
  intros Hi.
  assert (H1 : (S i) mod 4 = 1 /\ (S (S i)) mod 4 = 2 /\ (S (S (S i))) mod 4 = 3).
  { pose proof (Nat.div_mod_eq i 4) as Hd. rewrite Hi in Hd.
    repeat split.
    - replace (S i) with (1 + (i / 4) * 4) by lia. rewrite Nat.Div0.mod_add. reflexivity.
    - replace (S (S i)) with (2 + (i / 4) * 4) by lia. rewrite Nat.Div0.mod_add. reflexivity.
    - replace (S (S (S i))) with (3 + (i / 4) * 4) by lia. rewrite Nat.Div0.mod_add. reflexivity. }
  destruct H1 as (H1 & H2 & H3).
  unfold channels. cbn [app everyFrom]. unfold blankTest at 1 2 3 4.
  rewrite Hi, H1, H2, H3. cbn [Nat.eqb orb].
  replace (S (S (S (S i)))) with (i + 4) by lia.
  unfold rgbZero. rewrite !andb_assoc, andb_true_r. reflexivity.
Qed.

Lemma everyFrom_pixels ps : forall i,
  i mod 4 = 0 ->
  everyFrom blankTest i (flat_map channels ps) = forallb rgbZero ps.
Proof.
  induction ps as [|p ps IH]; intros i Hi; [reflexivity|].
  cbn [flat_map forallb]. rewrite everyFrom_pixel by exact Hi.
  rewrite IH; [reflexivity|].
  replace (i + 4) with (i + 1 * 4) by lia. rewrite Nat.Div0.mod_add. exact Hi.
Qed.

Lemma isBlank_pixels ps : isBlank (flat_map channels ps) = forallb rgbZero ps.
Proof. apply (everyFrom_pixels ps 0). reflexivity. Qed.

Lemma flat_map_flat_map {A B C} (f : B -> list C) (g : A -> list B) l :
  flat_map f (flat_map g l) = flat_map (fun a => flat_map f (g a)) l.
Proof.
  induction l as [|a l IH]; [reflexivity|].
  cbn [flat_map]. rewrite flat_map_app, IH. reflexivity.
Qed.

Lemma flat_map_singleton {A B} (f : A -> list B) (g : nat -> A) l :
  flat_map f (List.map g l) = flat_map (fun x => f (g x)) l.
Proof. induction l as [|a l IH]; [reflexivity|]. cbn. rewrite IH. reflexivity. Qed.

Lemma imageData_pixels c sx sy sw sh :
  imageData c sx sy sw sh = flat_map channels (sampledPixels c sx sy sw sh).
Proof.
  unfold imageData, sampledPixels. rewrite flat_map_flat_map.
  apply flat_map_ext. intros y. rewrite flat_map_singleton. reflexivity.
Qed.

Lemma isBlank_imageData c sw sh :
  isBlank (imageData c 0 0 sw sh) = true
  <-> forall x y, x < sw -> y < sh -> rgbZero (pixelAt c x y) = true.
Proof.
  rewrite imageData_pixels, isBlank_pixels. unfold sampledPixels.
  rewrite forallb_forall. split.
  - intros H x y Hx Hy. apply H. apply in_flat_map. exists y. split.
    + apply in_seq. lia.
    + apply in_map_iff. exists x. split; [reflexivity|]. apply in_seq. lia.
  - intros H p Hp. apply in_flat_map in Hp as (y & Hy & Hp).
    apply in_map_iff in Hp as (x & <- & Hx).
    apply in_seq in Hx, Hy. apply H; lia.
Qed.

Lemma pixelAt_painted vw vh frame x y :
  x < vw -> y < vh -> pixelAt (paintedCanvas vw vh frame) x y = frame x y.
Proof.
  intros Hx Hy. unfold pixelAt, paintedCanvas, clearedCanvas, painted, cleared.
  cbn [canvasWidth canvasHeight bitmap].
  assert (H : inRect x y vw vh = true).
  { unfold inRect. apply andb_true_iff. split; apply Nat.ltb_lt; assumption. }
  rewrite H. reflexivity.
Qed.

Lemma isBlank_painted vw vh frame :
  isBlank (imageData (paintedCanvas vw vh frame) 0 0 (Nat.min 10 vw) (Nat.min 10 vh))
  = true
  <-> forall x y, x < Nat.min 10 vw -> y < Nat.min 10 vh ->
        rgbZero (frame x y) = true.
Proof.
  rewrite isBlank_imageData. split; intros H x y Hx Hy.
  - rewrite <- (pixelAt_painted vw vh frame x y) by lia. apply H; assumption.
  - rewrite pixelAt_painted by lia. apply H; assumption.
Qed.

(** ** capture: the frame extractor *)

Lemma checkReady_run m b st :
  checkReady m b st
  = if readyState b <? 2 then
      if m && (1 <=? readyState b)
      then (Return (negb (readyStateAfterWait b <? 2)), slept 500 st)
      else (Return false, st)
    else (Return true, st).
Proof.
  unfold checkReady, bind, sleep, modify, ret.
  destruct (readyState b <? 2); [|reflexivity].
  destruct (m && (1 <=? readyState b)); [|reflexivity].
  destruct (readyStateAfterWait b <? 2); reflexivity.
Qed.

Lemma checkReady_state m b st :
  exists r, fst (checkReady m b st) = Return r
    /\ (snd (checkReady m b st) = st \/ snd (checkReady m b st) = slept 500 st).
Proof.
  rewrite checkReady_run.
  destruct (readyState b <? 2); [destruct (m && _)|]; eexists; split;
    try reflexivity; auto.
Qed.

Lemma capture_run p b st :
  capture p b st
  = match videoRef st, canvasRef st with
    | Some _, Some h =>
        if isActive st then
          match checkReady (isMobileUA (userAgent b)) b st with
          | (Return true, st1) => captureReady p b h st1
          | (Return false, st1) => (Return None, st1)
          | (Throw e, st1) => (Throw e, st1)
          | (Hang, st1) => (Hang, st1)
          end
        else (Return None, st)
    | _, _ => (Return None, st)
    end.
Proof.
  unfold capture, captureReady. unfold bind at 1, get at 1.
  destruct (videoRef st); [|reflexivity].
  destruct (canvasRef st); [|reflexivity].
  destruct (isActive st); [|reflexivity]. cbn [negb].
  unfold bind at 1.
  destruct (checkReady (isMobileUA (userAgent b)) b st) as [[[|]|e|] st1];
    reflexivity.
Qed.

Lemma captureReady_returns p b h st :
  exists r, fst (captureReady p b h st) = Return r
            /\ (r = None \/ r = Some h).
Proof.
  unfold captureReady.
  destruct (resolveDimensions p (isMobileUA (userAgent b)) b) as [vw vh].
  destruct ((vw =? 0) || (vh =? 0)); [exists None; auto|].
  destruct (context2d b); cbn [negb]; [|exists None; auto].
  unfold tryCatch. rewrite captureBody_run.
  destruct (drawImage b) as [frame|e]; [|exists None; auto].
  cbv zeta. destruct (getImageDataThrows b); [exists None; auto|].
  destruct (isBlank _); [exists None; auto|exists (Some h); auto].
Qed.

(** The three ways past the readiness check, and the two ways out. *)
Ltac ready_cases :=
  match goal with
  | |- context [readyState ?b <? 2] =>
      destruct (readyState b <? 2);
      [destruct (_ && _); [destruct (negb _)|]|]
  end.

(** Name the state [captureReady] is run on. *)
Ltac on_captureReady tac :=
  match goal with
  | |- context [captureReady ?p ?b ?h ?s] => tac p b h s
  end.

Lemma capture_returns p b st :
  exists r, fst (capture p b st) = Return r.
Proof.
  rewrite capture_run.
  destruct (videoRef st); [|eexists; reflexivity].
  destruct (canvasRef st) as [h|]; [|eexists; reflexivity].
  destruct (isActive st); [|eexists; reflexivity].
  rewrite checkReady_run.
  ready_cases; try (eexists; reflexivity).
  all: on_captureReady
         ltac:(fun p b h s =>
                 destruct (captureReady_returns p b h s) as (r & Hr & _));
       eexists; exact Hr.
Qed.

Lemma rgbZero_true p :
  rgbZero p = true <-> red p = 0 /\ green p = 0 /\ blue p = 0.
Proof.
  unfold rgbZero. rewrite !andb_true_iff, !Nat.eqb_eq. tauto.
Qed.

Lemma canvasAt_withCanvas h c st : canvasAt (withCanvas h c st) h = c.
Proof. unfold withCanvas. apply canvasAt_put. Qed.

Lemma forallb_false_exists {A} (f : A -> bool) l :
  forallb f l = false -> exists x, In x l /\ f x = false.
Proof.
  induction l as [|a l IH]; simpl; [discriminate|].
  destruct (f a) eqn:E; simpl.
  - intros H. destruct (IH H) as (x & Hx & Hf). eauto.
  - intros _. eauto.
Qed.

Lemma not_blank_pixel vw vh frame :
  isBlank (imageData (paintedCanvas vw vh frame) 0 0 (Nat.min 10 vw) (Nat.min 10 vh))
  = false ->
  exists x y, x < 10 /\ y < 10 /\ rgbZero (frame x y) = false.
Proof.
  rewrite imageData_pixels, isBlank_pixels. intros H.
  destruct (forallb_false_exists _ _ H) as (px & Hin & Hpx).
  unfold sampledPixels in Hin.
  apply in_flat_map in Hin as (y & Hy & Hin).
  apply in_map_iff in Hin as (x & <- & Hx).
  apply in_seq in Hx, Hy. exists x, y.
  rewrite pixelAt_painted in Hpx by lia. repeat split; auto; lia.
Qed.

Lemma captureReady_success p b h st h' st' :
  captureReady p b h st = (Return (Some h'), st') ->
  h' = h
  /\ (canvasWidth (canvasAt st' h), canvasHeight (canvasAt st' h))
     = resolveDimensions p (isMobileUA (userAgent b)) b
  /\ (canvasWidth (canvasAt st' h) <> 0 /\ canvasHeight (canvasAt st' h) <> 0)
  /\ (exists frame, drawImage b = Painted frame
      /\ (forall x y, x < canvasWidth (canvasAt st' h) ->
                      y < canvasHeight (canvasAt st' h) ->
                      pixelAt (canvasAt st' h) x y = frame x y)
      /\ exists x y, x < 10 /\ y < 10 /\ rgbZero (frame x y) = false)
  /\ exists c, st' = withCanvas h c st.
Proof.
  unfold captureReady.
  destruct (resolveDimensions p (isMobileUA (userAgent b)) b) as [vw vh].
  destruct ((vw =? 0) || (vh =? 0)) eqn:Hz; [discriminate|].
  apply orb_false_iff in Hz as [Hw Hh]. apply Nat.eqb_neq in Hw, Hh.
  destruct (context2d b); cbn [negb]; [|discriminate].
  unfold tryCatch. rewrite captureBody_run.
  destruct (drawImage b) as [frame|e]; [|discriminate].
  cbv zeta. destruct (getImageDataThrows b); [discriminate|].
  destruct (isBlank _) eqn:Hb; [discriminate|].
  intros H. inversion H; subst. rewrite canvasAt_withCanvas.
  change (canvasWidth (paintedCanvas vw vh frame)) with vw.
  change (canvasHeight (paintedCanvas vw vh frame)) with vh.
  repeat split; auto.
  - exists frame. split; [reflexivity|]. split.
    + intros x y Hx Hy. apply pixelAt_painted; assumption.
    + eapply not_blank_pixel; eauto.
  - eexists; reflexivity.
Qed.

Lemma capture_success p b st h st' :
  capture p b st = (Return (Some h), st') -> Captured p b st h st'.
Proof.
  rewrite capture_run.
  destruct (videoRef st); [|discriminate].
  destruct (canvasRef st) as [h0|] eqn:Hc; [|discriminate].
  destruct (isActive st) eqn:Ha; [|discriminate].
  destruct (checkReady_state (isMobileUA (userAgent b)) b st) as (r & Hr & Hs).
  destruct (checkReady (isMobileUA (userAgent b)) b st) as [o st1].
  cbn [fst snd] in Hr, Hs. subst o.
  destruct r; [|discriminate].
  intros H. apply captureReady_success in H as (-> & H1 & H2 & H3 & c & H4).
  split; auto.
  exists c. destruct Hs as [->| ->]; auto.
Qed.

Lemma captureReady_sampled p b h st vw vh frame :
  resolveDimensions p (isMobileUA (userAgent b)) b = (vw, vh) ->
  vw <> 0 -> vh <> 0 -> context2d b = true ->
  drawImage b = Painted frame -> getImageDataThrows b = None ->
  fst (captureReady p b h st)
  = if isBlank (imageData (paintedCanvas vw vh frame) 0 0
                  (Nat.min 10 vw) (Nat.min 10 vh))
    then Return None else Return (Some h).
Proof.
  intros Hd Hw Hh Hc Hp Hg. unfold captureReady. rewrite Hd.
  apply Nat.eqb_neq in Hw, Hh. rewrite Hw, Hh, Hc. cbn [orb negb].
  unfold tryCatch. rewrite captureBody_run, Hp, Hg. cbv zeta.
  destruct (isBlank _); reflexivity.
Qed.

Lemma captureReady_black p b h st frame :
  drawImage b = Painted frame ->
  (forall x y, rgbZero (frame x y) = true) ->
  fst (captureReady p b h st) = Return None.
Proof.
  intros Hp Hblack. unfold captureReady.
  destruct (resolveDimensions p (isMobileUA (userAgent b)) b) as [vw vh].
  destruct ((vw =? 0) || (vh =? 0)); [reflexivity|].
  destruct (context2d b); cbn [negb]; [|reflexivity].
  unfold tryCatch. rewrite captureBody_run, Hp. cbv zeta.
  destruct (getImageDataThrows b); [reflexivity|].
  rewrite (proj2 (isBlank_painted vw vh frame)); [reflexivity|].
  intros x y _ _. apply Hblack.
Qed.

(** C5: once [drawImage] and [getImageData] have succeeded, [capture]
    returns none exactly when red, green and blue are zero at every pixel of
    the top-left block of min(10, width) by min(10, height) pixels, whatever
    the alpha channel holds, and returns the canvas otherwise; and a frame
    whose red, green and blue are zero everywhere always makes [capture]
    return none. *)
Theorem capture_blank_iff_sampled_rgb_zero :
  forall (p : Props) (b : Browser) (st : State),
    (forall h el st1 vw vh frame,
        videoRef st = Some el -> canvasRef st = Some h -> isActive st = true ->
        checkReady (isMobileUA (userAgent b)) b st = (Return true, st1) ->
        resolveDimensions p (isMobileUA (userAgent b)) b = (vw, vh) ->
        vw <> 0 -> vh <> 0 -> context2d b = true ->
        drawImage b = Painted frame -> getImageDataThrows b = None ->
        (fst (capture p b st) = Return None
         <-> forall x y, x < Nat.min 10 vw -> y < Nat.min 10 vh ->
               red (frame x y) = 0 /\ green (frame x y) = 0
               /\ blue (frame x y) = 0)
        /\ (fst (capture p b st) <> Return None ->
            fst (capture p b st) = Return (Some h)))
    /\ (forall frame,
          drawImage b = Painted frame ->
          (forall x y, red (frame x y) = 0 /\ green (frame x y) = 0
                       /\ blue (frame x y) = 0) ->
          fst (capture p b st) = Return None).
Proof.
  intros p b st. split.
  - intros h el st1 vw vh frame Hv Hc Ha Hr Hd Hw Hh Hctx Hp Hg.
    rewrite capture_run, Hv, Hc, Ha, Hr.
    rewrite (captureReady_sampled p b h st1 vw vh frame) by assumption.
    pose proof (isBlank_painted vw vh frame) as Hb.
    destruct (isBlank _) eqn:E.
    + split; [|congruence]. split; [|reflexivity].
      intros _ x y Hx Hy. apply rgbZero_true. apply Hb; auto.
    + split; [|reflexivity]. split; [discriminate|].
      intros H. assert (false = true); [|discriminate].
      apply Hb. intros x y Hx Hy. apply rgbZero_true. apply H; assumption.
  - intros frame Hp Hblack.
    rewrite capture_run.
    destruct (videoRef st); [|reflexivity].
    destruct (canvasRef st) as [h|]; [|reflexivity].
    destruct (isActive st); [|reflexivity].
    rewrite checkReady_run.
    ready_cases; try reflexivity.
    all: apply (captureReady_black p b h _ frame Hp);
      intros x y; apply rgbZero_true, Hblack.
Qed.

(** An opaque black frame on a running desktop session is reported as no
    frame; for a grey frame the result is none only if the sampled block
    were black. *)
Lemma capture_blank_iff_sampled_rgb_zero_witness :
  fst (capture defaultProps (desktopPainting (solid opaqueBlack)) running)
  = Return None
  /\ (fst (capture defaultProps (desktopPainting (solid grey)) running)
      = Return None
      <-> forall x y, x < Nat.min 10 640 -> y < Nat.min 10 480 ->
            red (solid grey x y) = 0 /\ green (solid grey x y) = 0
            /\ blue (solid grey x y) = 0).
Proof.
  split.
  - apply (proj2 (capture_blank_iff_sampled_rgb_zero defaultProps
                    (desktopPainting (solid opaqueBlack)) running)
             (solid opaqueBlack)).
    + reflexivity.
    + intros x y. repeat split.
  - apply (proj1 (capture_blank_iff_sampled_rgb_zero defaultProps
                    (desktopPainting (solid grey)) running)
             0 (mkVideoElement (Some webcam) true
                  (<["autoplay" := "true"]>
                     (<["webkit-playsinline" := "true"]>
                        (<["playsinline" := "true"]> ∅))))
             running 640 480 (solid grey));
      try reflexivity; discriminate.
Defined.

Lemma captureReady_state p b h st :
  snd (captureReady p b h st) = st
  \/ exists c, snd (captureReady p b h st) = withCanvas h c st.
Proof.
  unfold captureReady.
  destruct (resolveDimensions p (isMobileUA (userAgent b)) b) as [vw vh].
  destruct ((vw =? 0) || (vh =? 0)); [left; reflexivity|].
  destruct (context2d b); cbn [negb]; [|left; reflexivity].
  unfold tryCatch. rewrite captureBody_run.
  destruct (drawImage b) as [frame|e]; [|right; eexists; reflexivity].
  cbv zeta. destruct (getImageDataThrows b); [right; eexists; reflexivity|].
  destruct (isBlank _); right; eexists; reflexivity.
Qed.

Lemma captureReady_zero p b h st :
  (fst (resolveDimensions p (isMobileUA (userAgent b)) b) = 0
   \/ snd (resolveDimensions p (isMobileUA (userAgent b)) b) = 0) ->
  captureReady p b h st = (Return None, st).
Proof.
  unfold captureReady.
  destruct (resolveDimensions p (isMobileUA (userAgent b)) b) as [vw vh].
  cbn [fst snd]. intros [-> | ->]; [reflexivity|].
  rewrite orb_true_r. reflexivity.
Qed.

Lemma capture_keeps_isActive p b st :
  isActive (snd (capture p b st)) = isActive st.
Proof.
  rewrite capture_run.
  destruct (videoRef st); [|reflexivity].
  destruct (canvasRef st) as [h|]; [|reflexivity].
  destruct (isActive st) eqn:Ha; [|exact Ha].
  rewrite checkReady_run.
  ready_cases; try exact Ha.
  all: on_captureReady
         ltac:(fun p b h s =>
                 destruct (captureReady_state p b h s) as [-> | [c ->]]);
       exact Ha.
Qed.

Lemma startCamera_isActive b st :
  fst (startCamera b st) <> Return true ->
  isActive (snd (startCamera b st)) = isActive st.
Proof.
  destruct (checkCameraAccess b) as [c|t] eqn:Hp.
  - destruct (Access.available c) eqn:Ha.
    + destruct (startCamera_granted_run b st c Hp Ha) as (attempts & _ & HR).
      destruct HR; try reflexivity. intros Hne. contradiction Hne. reflexivity.
    + rewrite (startCamera_unavailable b st c Hp Ha). reflexivity.
  - rewrite (startCamera_probeThrows b st t Hp). reflexivity.
Qed.

Lemma stopCamera_isActive st : isActive (snd (stopCamera st)) = false.
Proof.
  unfold stopCamera, bind, modify, get, ret, onCameraReady.
  destruct (streamRef st); cbn [videoRef setStreamRef];
    match goal with |- context [match videoRef ?s with _ => _ end] =>
      destruct (videoRef s) end; reflexivity.
Qed.

Lemma runOps_inactive p ops : forall st st',
  isActive st = false -> runOps p ops st = (st', false) -> isActive st' = false.
Proof.
  induction ops as [|op ops IH]; intros st st' Ha H; cbn [runOps] in H.
  - inversion H; subst. exact Ha.
  - destruct (runOp p op st) as [st1 ok1] eqn:E1.
    destruct (runOps p ops st1) as [st2 ok2] eqn:E2.
    inversion H; subst. apply orb_false_iff in H2 as [-> ->].
    apply (IH st1 st' ); [|exact E2].
    destruct op as [b| |b]; cbn [runOp] in E1.
    + pose proof (startCamera_isActive b st) as Hs.
      destruct (startCamera b st) as [[[|]|e|] s]; inversion E1; subst;
        cbn [fst snd] in Hs; rewrite Hs; auto; discriminate.
    + inversion E1; subst. apply stopCamera_isActive.
    + inversion E1; subst. rewrite capture_keeps_isActive. exact Ha.
Qed.

Lemma capture_inactive p b st :
  isActive st = false \/ videoRef st = None \/ canvasRef st = None ->
  capture p b st = (Return None, st).
Proof.
  rewrite capture_run. intros [H|[H|H]]; rewrite H.
  - destruct (videoRef st); [destruct (canvasRef st)|]; reflexivity.
  - reflexivity.
  - destruct (videoRef st); reflexivity.
Qed.

(** C6: [capture] always returns and never throws.  It returns none and
    leaves the state as it is when the session is inactive or an element is
    missing.  On an active session it returns none when [readyState] is
    below 2: at once off mobile or when [readyState] is 0, and on mobile
    with [readyState] 1 after one 500 ms wait if it is then still below 2.
    Past that check it returns none, the canvases untouched, when a
    resolved dimension is zero; the resolved dimensions are the natural
    ones, except on mobile when one of these is zero, where they are the
    element's client size, or the configured size where that is zero.  It
    waits at most once.  And after any operations since mounting among
    which no [startCamera] returned true, it returns none. *)
Theorem capture_precondition_failures_return_none :
  forall (p : Props) (b : Browser) (st : State),
    let isMobile := isMobileUA (userAgent b) in
    (exists r, fst (capture p b st) = Return r)
    /\ (isActive st = false \/ videoRef st = None \/ canvasRef st = None ->
        capture p b st = (Return None, st))
    /\ (forall el h,
          videoRef st = Some el -> canvasRef st = Some h -> isActive st = true ->
          (readyState b < 2 ->
           isMobile = false \/ readyState b < 1 ->
           capture p b st = (Return None, st))
          /\ (readyState b < 2 -> isMobile = true -> 1 <= readyState b ->
              readyStateAfterWait b < 2 ->
              capture p b st = (Return None, slept 500 st))
          /\ (2 <= readyState b
              \/ (isMobile = true /\ 1 <= readyState b
                  /\ 2 <= readyStateAfterWait b) ->
              fst (resolveDimensions p isMobile b) = 0
              \/ snd (resolveDimensions p isMobile b) = 0 ->
              fst (capture p b st) = Return None
              /\ canvases (snd (capture p b st)) = canvases st)
          /\ (sleepLog (snd (capture p b st)) = sleepLog st
              \/ sleepLog (snd (capture p b st)) = sleepLog st ++ [500%N]))
    /\ (resolveDimensions p isMobile b
        = if ((videoWidth b =? 0) || (videoHeight b =? 0)) && isMobile
          then (orElseNat (clientWidth b) (width p),
                orElseNat (clientHeight b) (height p))
          else (videoWidth b, videoHeight b))
    /\ (forall ops st0,
          runOps p ops mounted = (st0, false) ->
          capture p b st0 = (Return None, st0)).
Proof.
  intros p b st isMobile. split; [apply capture_returns|].
  split; [apply capture_inactive|]. split; [|split; [reflexivity|]].
  - intros el h Hv Hc Ha. rewrite capture_run, Hv, Hc, Ha, checkReady_run.
    fold isMobile. split; [|split; [|split]].
    + intros Hlt Hor. apply Nat.ltb_lt in Hlt. rewrite Hlt.
      destruct Hor as [-> | H1]; [reflexivity|].
      replace (1 <=? readyState b) with false
        by (symmetry; apply Nat.leb_gt; exact H1).
      rewrite andb_false_r. reflexivity.
    + intros Hlt Hm H1 H2. apply Nat.ltb_lt in Hlt, H2. apply Nat.leb_le in H1.
      rewrite Hlt, Hm, H1, H2. reflexivity.
    + intros Hready Hzero.
      assert (Hgo : (if readyState b <? 2
                     then if isMobile && (1 <=? readyState b)
                          then (Return (negb (readyStateAfterWait b <? 2)),
                                slept 500 st)
                          else (Return false, st)
                     else (Return true, st))
                    = (Return true, st)
                    \/ (if readyState b <? 2
                        then if isMobile && (1 <=? readyState b)
                             then (Return (negb (readyStateAfterWait b <? 2)),
                                   slept 500 st)
                             else (Return false, st)
                        else (Return true, st))
                       = (Return true, slept 500 st)).
      { destruct Hready as [H2 | (Hm & H1 & H2)].
        - apply Nat.ltb_ge in H2. rewrite H2. left. reflexivity.
        - destruct (readyState b <? 2); [|left; reflexivity].
          apply Nat.leb_le in H1. apply Nat.ltb_ge in H2.
          rewrite Hm, H1, H2. right. reflexivity. }
      destruct Hgo as [-> | ->];
        rewrite captureReady_zero by exact Hzero; split; reflexivity.
    + ready_cases; try (left; reflexivity); try (right; reflexivity).
      all: on_captureReady
             ltac:(fun p b h s =>
                     destruct (captureReady_state p b h s) as [-> | [c ->]]);
           try (left; reflexivity); right; reflexivity.
  - intros ops st0 H. apply capture_inactive. left.
    eapply runOps_inactive; [|exact H]. reflexivity.
Qed.

(** A start refused by the probe, a stop, then a capture: no frame. *)
Lemma capture_precondition_failures_return_none_witness :
  let ops := [OpStart probeFails; OpStop] in
  let st0 := fst (runOps defaultProps ops mounted) in
  runOps defaultProps ops mounted = (st0, false)
  /\ capture defaultProps (desktopPainting (solid grey)) st0 = (Return None, st0).
Proof.
  cbv zeta. split; [vm_compute; reflexivity|].
  destruct (capture_precondition_failures_return_none defaultProps
              (desktopPainting (solid grey)) mounted)
    as (_ & _ & _ & _ & Hbefore).
  apply (Hbefore [OpStart probeFails; OpStop]). vm_compute. reflexivity.
Defined.

(** C7, as amended: the buffer of every successful capture has the
    dimensions capture resolved: the natural dimensions of the video source
    when both are non-zero or the device is not mobile, and on mobile with a
    zero natural dimension the element's client size, or the configured
    size where that is zero. *)
Theorem capture_size_is_resolved_size :
  forall (p : Props) (b : Browser) (st st' : State) (h : nat),
    capture p b st = (Return (Some h), st') ->
    let isMobile := isMobileUA (userAgent b) in
    let c := canvasAt st' h in
    (canvasWidth c, canvasHeight c) = resolveDimensions p isMobile b
    /\ (isMobile = false \/ (videoWidth b <> 0 /\ videoHeight b <> 0) ->
        canvasWidth c = videoWidth b /\ canvasHeight c = videoHeight b)
    /\ (isMobile = true -> videoWidth b = 0 \/ videoHeight b = 0 ->
        canvasWidth c = orElseNat (clientWidth b) (width p)
        /\ canvasHeight c = orElseNat (clientHeight b) (height p)).
Proof.
  intros p b st st' h H isMobile c.
  pose proof (captured_size _ _ _ _ _ (capture_success p b st h st' H)) as Hs.
  fold isMobile c in Hs. split; [exact Hs|].
  unfold resolveDimensions in Hs. split.
  - intros Hor.
    assert (Hc : ((videoWidth b =? 0) || (videoHeight b =? 0)) && isMobile = false).
    { destruct Hor as [-> | [Hw Hh]]; [apply andb_false_r|].
      apply Nat.eqb_neq in Hw, Hh. rewrite Hw, Hh. reflexivity. }
    rewrite Hc in Hs. inversion Hs. auto.
  - intros Hm Hor.
    assert (Hc : ((videoWidth b =? 0) || (videoHeight b =? 0)) && isMobile = true).
    { rewrite Hm, andb_true_r. apply orb_true_iff.
      destruct Hor as [Hz|Hz]; [left|right]; apply Nat.eqb_eq; exact Hz. }
    rewrite Hc in Hs. inversion Hs. auto.
Qed.

(** A running desktop session at 640 by 480 yields a 640 by 480 buffer. *)
Lemma capture_size_is_resolved_size_witness :
  capture defaultProps (desktopPainting (solid grey)) running
  = (Return (Some 0),
     snd (capture defaultProps (desktopPainting (solid grey)) running))
  /\ (canvasWidth
        (canvasAt (snd (capture defaultProps (desktopPainting (solid grey)) running)) 0),
      canvasHeight
        (canvasAt (snd (capture defaultProps (desktopPainting (solid grey)) running)) 0))
     = (640, 480).
Proof.
  split; [reflexivity|].
  apply (capture_size_is_resolved_size defaultProps
           (desktopPainting (solid grey)) running
           (snd (capture defaultProps (desktopPainting (solid grey)) running)) 0).
  reflexivity.
Defined.

(** C7 as stated fails: on a phone whose element reports no natural size,
    a successful capture returns a 320 by 240 buffer, which is not the
    natural size of the source. *)
Lemma capture_size_not_natural_size :
  let b := phoneWithoutSize (solid grey) in
  let r := capture defaultProps b runningOnPhone in
  fst r = Return (Some 0)
  /\ canvasWidth (canvasAt (snd r) 0) = 320
  /\ canvasHeight (canvasAt (snd r) 0) = 240
  /\ videoWidth b = 0 /\ videoHeight b = 0
  /\ ~ (canvasWidth (canvasAt (snd r) 0) = videoWidth b
        /\ canvasHeight (canvasAt (snd r) 0) = videoHeight b).
Proof.
  cbv zeta. do 5 (split; [reflexivity|]).
  intros [H _]. vm_compute in H. discriminate H.
Qed.

(** C9, as amended: the buffer a successful capture returns is the canvas
    the component holds in [canvasRef], before and after the call; two
    successful captures in a row return the same buffer, and after the
    second it holds the second frame. *)
Theorem capture_returns_component_canvas :
  forall (p : Props) (b1 b2 : Browser) (st st1 st2 : State) (h1 h2 : nat),
    capture p b1 st = (Return (Some h1), st1) ->
    capture p b2 st1 = (Return (Some h2), st2) ->
    canvasRef st = Some h1
    /\ canvasRef st1 = Some h1
    /\ h2 = h1
    /\ exists frame2,
         drawImage b2 = Painted frame2
         /\ forall x y,
              x < canvasWidth (canvasAt st2 h1) ->
              y < canvasHeight (canvasAt st2 h1) ->
              pixelAt (canvasAt st2 h1) x y = frame2 x y.
Proof.
  intros p b1 b2 st st1 st2 h1 h2 H1 H2.
  pose proof (capture_success _ _ _ _ _ H1) as C1.
  pose proof (capture_success _ _ _ _ _ H2) as C2.
  pose proof (captured_canvas _ _ _ _ _ C1) as R1.
  pose proof (captured_canvas _ _ _ _ _ C2) as R2.
  assert (R1' : canvasRef st1 = Some h1).
  { destruct (captured_state _ _ _ _ _ C1) as [c [-> | ->]]; exact R1. }
  assert (h2 = h1) by congruence. subst h2.
  repeat split; auto.
  destruct (captured_frame _ _ _ _ _ C2) as (frame2 & Hd & Hpx & _).
  exists frame2. auto.
Qed.

(** Two captures in a row, the scene turning from grey to white. *)
Lemma capture_returns_component_canvas_witness :
  let b1 := desktopPainting (solid grey) in
  let b2 := desktopPainting (solid white) in
  let st1 := snd (capture defaultProps b1 running) in
  let st2 := snd (capture defaultProps b2 st1) in
  capture defaultProps b1 running = (Return (Some 0), st1)
  /\ capture defaultProps b2 st1 = (Return (Some 0), st2)
  /\ canvasRef st1 = Some 0.
Proof.
  cbv zeta. split; [reflexivity|]. split; [vm_compute; reflexivity|].
  apply (capture_returns_component_canvas defaultProps
           (desktopPainting (solid grey)) (desktopPainting (solid white))
           running
           (snd (capture defaultProps (desktopPainting (solid grey)) running))
           (snd (capture defaultProps (desktopPainting (solid white))
                   (snd (capture defaultProps (desktopPainting (solid grey))
                           running))))
           0 0); vm_compute; reflexivity.
Defined.

(** C9 as stated fails: the buffer handed out by the first capture is the
    canvas the component keeps, and the second capture overwrites it. *)
Lemma capture_buffer_is_shared_and_overwritten :
  let b1 := desktopPainting (solid grey) in
  let b2 := desktopPainting (solid white) in
  let r1 := capture defaultProps b1 running in
  let r2 := capture defaultProps b2 (snd r1) in
  fst r1 = Return (Some 0)
  /\ fst r2 = Return (Some 0)
  /\ canvasRef (snd r1) = Some 0
  /\ pixelAt (canvasAt (snd r1) 0) 0 0 = grey
  /\ pixelAt (canvasAt (snd r2) 0) 0 0 = white
  /\ canvases (snd r2) !! 0 <> canvases (snd r1) !! 0.
Proof.
  cbv zeta. do 5 (split; [vm_compute; reflexivity|]).
  intros H.
  assert (Hpx : pixelAt (canvasAt (snd (capture defaultProps
                   (desktopPainting (solid white))
                   (snd (capture defaultProps (desktopPainting (solid grey)) running)))) 0) 0 0
               = pixelAt (canvasAt (snd (capture defaultProps
                   (desktopPainting (solid grey)) running)) 0) 0 0).
  { unfold canvasAt. rewrite H. reflexivity. }
  vm_compute in Hpx. discriminate Hpx.
Qed.

(** ** stopCamera: teardown *)

Lemma stopCamera_run st :
  stopCamera st
  = (Return tt, notifyStopped (setIsActive false (detachVideo (releaseStream st)))).
Proof.
  unfold stopCamera, releaseStream, detachVideo, notifyStopped,
    bind, modify, get, ret, onCameraReady.
  destruct (streamRef st) as [s|]; cbn [videoRef setStreamRef].
  - destruct (videoRef (fold_left stopTrack (tracks s) st)); reflexivity.
  - destruct (videoRef st); reflexivity.
Qed.

Lemma stopTracks_fields l : forall st,
  fold_left stopTrack l st
  = setStoppedTracks (stoppedTracks (fold_left stopTrack l st)) st.
Proof.
  induction l as [|t l IH]; intros st; cbn [fold_left].
  - destruct st; reflexivity.
  - rewrite IH. reflexivity.
Qed.

Lemma stopTracks_stopped l : forall st t,
  t ∈ stoppedTracks (fold_left stopTrack l st)
  <-> t ∈ l \/ t ∈ stoppedTracks st.
Proof.
  induction l as [|x l IH]; intros st t; cbn [fold_left].
  - split; [auto|]. intros [H|H]; [inversion H|exact H].
  - rewrite IH. unfold stopTrack. cbn [stoppedTracks setStoppedTracks].
    rewrite elem_of_cons, elem_of_union, elem_of_singleton. tauto.
Qed.

Lemma releaseStream_run st :
  releaseStream st
  = match streamRef st with
    | Some stream =>
        setStreamRef None
          (setStoppedTracks
             (stoppedTracks (fold_left stopTrack (tracks stream) st)) st)
    | None => st
    end.
Proof.
  unfold releaseStream. destruct (streamRef st) as [s|]; [|reflexivity].
  rewrite <- stopTracks_fields. reflexivity.
Qed.

Lemma stopped_streamRef st : streamRef (stopped st) = None.
Proof.
  unfold stopped, detachVideo. rewrite releaseStream_run.
  destruct (streamRef st) eqn:Hs; cbn [videoRef setStreamRef setStoppedTracks];
    destruct (videoRef st); cbn; auto.
Qed.

Lemma stopped_video st el :
  videoRef (stopped st) = Some el -> srcObject el = None.
Proof.
  unfold stopped, detachVideo. rewrite releaseStream_run.
  destruct (streamRef st) eqn:Hs; cbn [videoRef setStreamRef setStoppedTracks];
    destruct (videoRef st) eqn:Hv; cbn; rewrite ?Hv; intros H;
    inversion H; reflexivity.
Qed.

Lemma stopped_tracks st t :
  t ∈ stoppedTracks (stopped st)
  <-> (exists stream, streamRef st = Some stream /\ t ∈ tracks stream)
      \/ t ∈ stoppedTracks st.
Proof.
  unfold stopped, detachVideo. rewrite releaseStream_run.
  destruct (streamRef st) as [s|] eqn:Hs;
    cbn [videoRef setStreamRef setStoppedTracks];
    destruct (videoRef st) eqn:Hv; cbn; rewrite ?stopTracks_stopped.
  1-2: split; [intros [H|H]; [left; eauto|right; exact H]
              |intros [(s' & Hs' & H)|H]; [inversion Hs'; subst; auto|auto]].
  1-2: split; [auto|intros [(s' & Hs' & _)|H]; [discriminate|exact H]].
Qed.

Lemma stopped_idle st :
  streamRef st = None -> stoppedTracks (stopped st) = stoppedTracks st.
Proof.
  intros Hs. unfold stopped, detachVideo. rewrite releaseStream_run, Hs.
  destruct (videoRef st); reflexivity.
Qed.

Lemma stopped_twice st : stopped (stopped st) = notifyStopped (stopped st).
Proof.
  unfold stopped at 1. f_equal.
  rewrite (releaseStream_run (stopped st)), stopped_streamRef.
  unfold stopped, detachVideo. rewrite releaseStream_run.
  destruct (streamRef st); cbn [videoRef setStreamRef setStoppedTracks];
    destruct (videoRef st) eqn:Hv; cbn; rewrite ?Hv; reflexivity.
Qed.

(** C8: [stopCamera] returns normally from every state, with or without
    a session, and again when called a second time; after it the session is
    inactive, no stream is held, the video element has no source, every
    track of the stream that was held is stopped and no stopped track is
    revived; without a session no track is touched; and the second call
    changes nothing but to call [onCameraReady(false)] once more. *)
Theorem stopCamera_idempotent :
  forall st : State,
    let st1 := snd (stopCamera st) in
    let st2 := snd (stopCamera st1) in
    fst (stopCamera st) = Return tt
    /\ fst (stopCamera st1) = Return tt
    /\ isActive st1 = false
    /\ streamRef st1 = None
    /\ (forall el, videoRef st1 = Some el -> srcObject el = None)
    /\ (forall stream t, streamRef st = Some stream -> t ∈ tracks stream ->
          t ∈ stoppedTracks st1)
    /\ (forall t, t ∈ stoppedTracks st -> t ∈ stoppedTracks st1)
    /\ (streamRef st = None -> stoppedTracks st1 = stoppedTracks st)
    /\ st2 = notifyStopped st1.
Proof.
  intros st st1 st2. subst st2 st1. rewrite !stopCamera_run. cbn [fst snd].
  fold (stopped st). fold (stopped (stopped st)).
  split; [reflexivity|]. split; [reflexivity|]. split; [reflexivity|].
  split; [apply stopped_streamRef|]. split; [apply stopped_video|].
  split; [intros stream t Hs Ht; apply stopped_tracks; eauto|].
  split; [intros t Ht; apply stopped_tracks; auto|].
  split; [apply stopped_idle|apply stopped_twice].
Qed.

(** Start, stop, stop again: the track is stopped, nothing is held, and
    the second stop only repeats the notification. *)
Lemma stopCamera_idempotent_witness :
  let st1 := snd (stopCamera running) in
  streamRef running = Some webcam
  /\ 70 ∈ stoppedTracks st1
  /\ streamRef st1 = None
  /\ isActive st1 = false
  /\ snd (stopCamera st1) = notifyStopped st1.
Proof.
  cbv zeta. split; [reflexivity|].
  destruct (stopCamera_idempotent running)
    as (_ & _ & Hact & Hs & _ & Htracks & _ & _ & Htwice).
  split; [apply (Htracks webcam 70 eq_refl); apply elem_of_cons; left; reflexivity|].
  split; [exact Hs|]. split; [exact Hact|exact Htwice].
Defined.

(** ** The readiness gate within startCamera *)

Lemma startCamera_notifies b st :
  cameraReadyLog (snd (startCamera b st))
  = cameraReadyLog st
    ++ match fst (startCamera b st) with
       | Return true => [true]
       | _ => []
       end.
Proof.
  destruct (checkCameraAccess b) as [c|t] eqn:Hp.
  - destruct (Access.available c) eqn:Ha.
    + destruct (startCamera_granted_run b st c Hp Ha) as (attempts & _ & HR).
      destruct HR; cbn; rewrite ?app_nil_r; reflexivity.
    + rewrite (startCamera_unavailable b st c Hp Ha). cbn.
      rewrite app_nil_r. reflexivity.
  - rewrite (startCamera_probeThrows b st t Hp). cbn.
    rewrite app_nil_r. reflexivity.
Qed.

Lemma startCamera_returns b st : exists r, fst (startCamera b st) = Return r.
Proof.
  destruct (checkCameraAccess b) as [c|t] eqn:Hp.
  - destruct (Access.available c) eqn:Ha.
    + destruct (startCamera_granted_run b st c Hp Ha) as (attempts & _ & HR).
      eapply grantedRun_returns; eauto.
    + rewrite (startCamera_unavailable b st c Hp Ha). eexists; reflexivity.
  - rewrite (startCamera_probeThrows b st t Hp). eexists; reflexivity.
Qed.

(** C3: whatever events and timer expiries reach the readiness wait of a
    start attempt, in whatever order, [resolve()] is called at most once;
    once the [resolved] flag is set all three listeners are deregistered, in
    particular by the very task that sets it, and further events change
    nothing; a settled promise stays as it is; the timed run is one such
    sequence; and [startCamera] calls [onCameraReady(true)] once when it
    returns true and not at all otherwise. *)
Theorem readiness_resolves_at_most_once :
  forall (isMobile : bool) (ks : list Tick),
    let w := execAll isMobile ks (executor isMobile 0) in
    resolveCalls w <= 1
    /\ (resolved w = true -> listeners w = [])
    /\ (forall k, resolved w = false ->
          resolved (exec isMobile k w) = true ->
          listeners (exec isMobile k w) = [])
    /\ (resolved w = true -> forall now s, dispatch isMobile now s w = w)
    /\ (promise w <> Pending ->
        forall ks', promise (execAll isMobile ks' w) = promise w
                    /\ settledAt (execAll isMobile ks' w) = settledAt w)
    /\ (forall tl, exists ks0,
          runWait isMobile tl = execAll isMobile ks0 (executor isMobile 0))
    /\ (forall b st,
          cameraReadyLog (snd (startCamera b st))
          = cameraReadyLog st
            ++ match fst (startCamera b st) with
               | Return true => [true]
               | _ => []
               end).
Proof.
  intros isMobile ks w.
  assert (HS : Shape w) by (apply shape_execAll, shape_executor).
  split.
  { pose proof (shape_credit w HS) as Hc. unfold resolveCredit in Hc. lia. }
  split; [apply (shape_listeners w HS)|].
  split.
  { intros k _ Hr. apply (shape_listeners _ (shape_exec isMobile k w HS) Hr). }
  split; [intros Hr now s; apply dispatch_resolved, Hr|].
  split; [intros Hp ks'; apply (settled_execAll isMobile ks' w Hp)|].
  split; [intros tl; apply runEvents_interleaving|].
  apply startCamera_notifies.
Qed.

(** Loadeddata, then canplay, then both timeouts: one call of resolve. *)
Lemma readiness_resolves_at_most_once_witness :
  let ks := [mkTick 400 4 (Dispatch LoadedData);
             mkTick 405 4 (Dispatch CanPlay);
             mkTick 2000 4 (Expire (FallbackTimer, 2000%N));
             mkTick 5000 4 (Expire (UltimateTimer, 5000%N))] in
  let w := execAll false ks (executor false 0) in
  resolved w = true
  /\ resolveCalls w = 1
  /\ listeners w = []
  /\ promise w = Fulfilled.
Proof.
  cbv zeta. split; [reflexivity|]. split; [reflexivity|].
  split; [|reflexivity].
  apply (readiness_resolves_at_most_once false
           [mkTick 400 4 (Dispatch LoadedData);
            mkTick 405 4 (Dispatch CanPlay);
            mkTick 2000 4 (Expire (FallbackTimer, 2000%N));
            mkTick 5000 4 (Expire (UltimateTimer, 5000%N))]).
  reflexivity.
Defined.

Lemma app_eq_self {A} (l l' : list A) : l = l ++ l' -> l' = [].
Proof.
  intros H. apply (app_inv_head l). rewrite app_nil_r. symmetry. exact H.
Qed.

Lemma startCamera_quiet b st :
  quietUntil (ultimateMs (isMobileUA (userAgent b))) (timeline b) ->
  readyStateAt (timeline b) (fallbackMs (isMobileUA (userAgent b))) < 2 ->
  fst (startCamera b st) = Return false
  /\ (forall attempts c stream el,
        gumLog (snd (startCamera b st)) = gumLog st ++ attempts ->
        last attempts = Some (c, GumResolved (Some stream)) ->
        videoRef st = Some el ->
        error (snd (startCamera b st))
        = Some (ultimateMessage (isMobileUA (userAgent b)))).
Proof.
  intros Hq Hrs.
  destruct (runWait_quiet _ _ Hq Hrs) as [Hrej _].
  destruct (checkCameraAccess b) as [c|t] eqn:Hp.
  - destruct (Access.available c) eqn:Ha.
    + destruct (startCamera_granted_run b st c Hp Ha) as (attempts & HL & HR).
      destruct HR as [s el c0 H0 Hv P|s el c0 r H0 Hv P|s c0 H0 Hv|Hlen Hall|c0 e0 H0 Hd].
      * rewrite Hrej in P. discriminate.
      * split; [reflexivity|]. intros attempts' c' s' el' Hlog _ _.
        rewrite Hrej in P. inversion P; subst r. cbn.
        destruct (isMobileUA (userAgent b)); reflexivity.
      * split; [reflexivity|]. intros attempts' c' s' el' _ _ Hv'. congruence.
      * split; [reflexivity|]. intros attempts' c' s' el' Hlog Hlast _.
        cbn in Hlog. apply app_inv_head in Hlog. subst attempts'.
        specialize (Hall (c', GumResolved (Some s'))).
        discriminate Hall. apply last_Some in Hlast as [l' ->].
        apply elem_of_app. right. apply elem_of_cons. left. reflexivity.
      * split; [reflexivity|]. intros attempts' c' s' el' Hlog Hlast _.
        cbn in Hlog. apply app_inv_head in Hlog. subst attempts'.
        congruence.
    + rewrite (startCamera_unavailable b st c Hp Ha). split; [reflexivity|].
      intros attempts c' s' el' Hlog Hlast _. cbn in Hlog.
      apply app_eq_self in Hlog. subst. discriminate.
  - rewrite (startCamera_probeThrows b st t Hp). split; [reflexivity|].
    intros attempts c' s' el' Hlog Hlast _. cbn in Hlog.
    apply app_eq_self in Hlog. subst. discriminate.
Qed.

(** C4: with timers expiring when due, the readiness wait always settles,
    no later than the ultimate timeout (8000 ms on mobile, 5000 ms
    otherwise) plus, on mobile, the 1000 ms stabilisation delay; when
    nothing happens before the shorter fallback and the element is ready
    by then, the wait is fulfilled from there; when no event arrives within
    the ultimate budget and the element was not ready at the fallback, the
    wait is rejected at that very instant with the not-ready error and
    [startCamera] returns false, that error being its message once a
    stream was bound; and [startCamera] always returns. *)
Theorem readiness_wait_terminates :
  forall (isMobile : bool) (tl : MediaTimeline),
    promise (runWait isMobile tl) <> Pending
    /\ (exists t, settledAt (runWait isMobile tl) = Some t
          /\ (t <= ultimateMs isMobile + (if isMobile then 1000 else 0))%N)
    /\ ultimateMs isMobile = (if isMobile then 8000 else 5000)%N
    /\ (quietUntil (fallbackMs isMobile) tl ->
        2 <= readyStateAt tl (fallbackMs isMobile) ->
        promise (runWait isMobile tl) = Fulfilled
        /\ settledAt (runWait isMobile tl) = Some (fallbackSettles isMobile))
    /\ (quietUntil (ultimateMs isMobile) tl ->
        readyStateAt tl (fallbackMs isMobile) < 2 ->
        promise (runWait isMobile tl)
        = Rejected (newError (ultimateMessage isMobile))
        /\ settledAt (runWait isMobile tl) = Some (ultimateMs isMobile)
        /\ forall b st,
             isMobileUA (userAgent b) = isMobile -> timeline b = tl ->
             fst (startCamera b st) = Return false
             /\ (forall attempts c stream el,
                   gumLog (snd (startCamera b st)) = gumLog st ++ attempts ->
                   last attempts = Some (c, GumResolved (Some stream)) ->
                   videoRef st = Some el ->
                   error (snd (startCamera b st))
                   = Some (ultimateMessage isMobile)))
    /\ (forall b st, exists r, fst (startCamera b st) = Return r).
Proof.
  intros isMobile tl.
  destruct (runWait_settles isMobile tl) as [Hp Hs].
  split; [exact Hp|]. split; [exact Hs|]. split; [reflexivity|].
  split; [apply runWait_fallback|].
  split; [|apply startCamera_returns].
  intros Hq Hrs. destruct (runWait_quiet isMobile tl Hq Hrs) as [H1 H2].
  split; [exact H1|]. split; [exact H2|].
  intros b st <- <-. apply startCamera_quiet; assumption.
Qed.

(** A phone whose element stays silent: rejected after 8 seconds, and
    startCamera returns false. *)
Lemma readiness_wait_terminates_witness :
  quietUntil (ultimateMs true) neverPlays
  /\ readyStateAt neverPlays (fallbackMs true) < 2
  /\ promise (runWait true neverPlays)
     = Rejected (newError "Video not ready after 8 seconds")
  /\ settledAt (runWait true neverPlays) = Some 8000%N
  /\ fst (startCamera (staysSilent phoneUA) mounted) = Return false.
Proof.
  split; [exact I|]. split; [vm_compute; lia|].
  destruct (readiness_wait_terminates true neverPlays)
    as (_ & _ & _ & _ & Hquiet & _).
  destruct Hquiet as (Hrej & Hat & Hstart); [exact I|vm_compute; lia|].
  split; [exact Hrej|]. split; [exact Hat|].
  apply (Hstart (staysSilent phoneUA) mounted); reflexivity.
Defined.

(** ** Further behaviour of the component *)

(** The ultimate timeout rejects without setting the flag or removing the
    listeners; an event arriving later still runs its handler once, and
    its [resolve()] leaves the rejected promise as it is. *)
Example ultimate_timeout_keeps_listeners :
  let w := runWait false neverPlays in
  let w' := dispatch false 6000 LoadedData w in
  promise w = Rejected (newError "Video not ready after 5 seconds")
  /\ resolved w = false
  /\ listeners w = [LoadedData; CanPlay; ErrorEvent]
  /\ promise w' = promise w
  /\ resolveCalls w' = 1
  /\ listeners w' = [].
Proof. cbv zeta. repeat split; vm_compute; reflexivity. Qed.

(** Starting again while a session is running replaces the stream handle:
    a later stop ends the tracks of the second stream only. *)
Example restart_leaves_first_stream_live :
  let st2 := snd (startCamera desktopWithSecond running) in
  let st3 := snd (stopCamera st2) in
  streamRef running = Some webcam
  /\ streamRef st2 = Some secondWebcam
  /\ elements (stoppedTracks st3) = [80].
Proof. cbv zeta. repeat split; vm_compute; reflexivity. Qed.

(** *** The earlier revision *)

(** Without the flag, the event and the timeout both call [resolve()]. *)
Example legacy_resolve_called_twice :
  let w := Legacy.execAll false
             [mkTick 400 4 (Dispatch LoadedData);
              mkTick 3000 4 (Expire (FallbackTimer, 3000%N))]
             (Legacy.executor 0) in
  resolveCalls w = 2 /\ promise w = Fulfilled /\ settledAt w = Some 400%N.
Proof. cbv zeta. repeat split; vm_compute; reflexivity. Qed.

(** Without the ultimate timeout, an element that is not ready at 3000 ms
    leaves the promise pending with no timer left. *)
Example legacy_wait_can_stall :
  let w := Legacy.execAll true
             [mkTick 3000 1 (Expire (FallbackTimer, 3000%N))]
             (Legacy.executor 0) in
  promise w = Pending /\ timers w = [].
Proof. cbv zeta. split; vm_compute; reflexivity. Qed.

(** The earlier blank test looks at one pixel and at its alpha channel too:
    an opaque black frame is returned, where the current code reports no
    frame. *)
Example legacy_opaque_black_is_captured :
  fst (Legacy.capture defaultProps (desktopPainting (solid opaqueBlack)) running)
  = Return (Some 0)
  /\ fst (capture defaultProps (desktopPainting (solid opaqueBlack)) running)
     = Return None.
Proof. split; vm_compute; reflexivity. Qed.

(** The earlier size fallback goes to the configured size on every device. *)
Example legacy_size_fallback :
  Legacy.resolveDimensions defaultProps desktopWithoutSize = (320, 240)
  /\ resolveDimensions defaultProps false desktopWithoutSize = (0, 0)
  /\ fst (capture defaultProps desktopWithoutSize running) = Return None.
Proof. repeat split; vm_compute; reflexivity. Qed.
